(** * afero-s3: the S3-backed filesystem facade of [s3_fs.go]

    A shallow embedding of the facade ([Fs] and its methods) and of the
    path normalizer [sanitize], with the Go standard-library functions it
    calls ([strings.TrimSpace], [strings.ReplaceAll], [path.Clean],
    [path.Base], [path.Join], ...) modelled on Go strings, which are byte
    sequences. *)

From Stdlib Require Import List Ascii ZArith Bool Lia Arith.
From Stdlib Require String.
Import ListNotations.
Import String.StringSyntax.

Local Open Scope list_scope.

(** ** Go strings *)

(** A Go [string] is an immutable sequence of bytes. *)
Definition gostring : Type := list ascii.

(** String literals of the source are written [str "..."]. *)
Definition str (s : String.string) : gostring :=
  String.list_ascii_of_string s.
Arguments str s%_string_scope.

(** [a == b] on Go strings. *)
Fixpoint string_eqb (a b : gostring) : bool :=
  match a, b with
  | [], [] => true
  | x :: a', y :: b' => Ascii.eqb x y && string_eqb a' b'
  | _, _ => false
  end.

Definition slash : ascii := "/"%char.
Definition dot : ascii := "."%char.
Definition backslash : ascii := Eval cbv in ascii_of_nat 92.
Definition colon : ascii := ":"%char.

Definition is_slash (c : ascii) : bool := Ascii.eqb c slash.
Definition is_dot (c : ascii) : bool := Ascii.eqb c dot.

(** ** Package [strings] *)

Module strings.

(** [strings.HasSuffix(s, suffix)] *)
Definition HasSuffix (s suffix : gostring) : bool :=
  let n := length s in
  let m := length suffix in
  (m <=? n) && string_eqb (skipn (n - m) s) suffix.

(** [strings.HasPrefix(s, prefix)] *)
Fixpoint HasPrefix (s prefix : gostring) : bool :=
  match prefix, s with
  | [], _ => true
  | p :: prefix', c :: s' => Ascii.eqb c p && HasPrefix s' prefix'
  | _ :: _, [] => false
  end.

(** [strings.TrimPrefix(s, prefix)]: [s] without the leading [prefix],
    or [s] itself when it does not start with [prefix]. *)
Definition TrimPrefix (s prefix : gostring) : gostring :=
  if HasPrefix s prefix then skipn (length prefix) s else s.

(** [strings.ReplaceAll(s, old, new)] for one-byte [old] and [new], the
    only use in the source ([ReplaceAll(name, "\\", "/")]). *)
Definition ReplaceAll (s : gostring) (old new : ascii) : gostring :=
  map (fun c => if Ascii.eqb c old then new else c) s.

(** The six ASCII bytes of [asciiSpace]: tab, newline, vertical tab, form
    feed, carriage return and space. *)
Definition asciiSpace (c : ascii) : bool :=
  let n := nat_of_ascii c in
  ((9 <=? n) && (n <=? 13)) || (n =? 32).

Definition byte_is (c : ascii) (n : nat) : bool := nat_of_ascii c =? n.

(** [unicode.IsSpace] on the UTF-8 encoding of a rune above U+007F:
    U+0085 and U+00A0 take two bytes, U+1680, U+2000..U+200A, U+2028,
    U+2029, U+202F, U+205F and U+3000 take three. *)
Definition space2 (b0 b1 : ascii) : bool :=
  byte_is b0 194 && (byte_is b1 133 || byte_is b1 160).

Definition space3 (b0 b1 b2 : ascii) : bool :=
  (byte_is b0 225 && byte_is b1 154 && byte_is b2 128)
  || (byte_is b0 226 && byte_is b1 128
      && (((128 <=? nat_of_ascii b2) && (nat_of_ascii b2 <=? 138))
          || byte_is b2 168 || byte_is b2 169 || byte_is b2 175))
  || (byte_is b0 226 && byte_is b1 129 && byte_is b2 159)
  || (byte_is b0 227 && byte_is b1 128 && byte_is b2 128).

(** [strings.TrimLeftFunc(s, unicode.IsSpace)]: drop white-space runes
    from the front.  A byte that starts no white-space rune (this
    includes every ill-formed sequence, which decodes to U+FFFD) stops the
    scan. *)
Fixpoint TrimLeftSpace (s : gostring) : gostring :=
  match s with
  | [] => []
  | b0 :: s1 =>
      if asciiSpace b0 then TrimLeftSpace s1
      else
        match s1 with
        | [] => s
        | b1 :: s2 =>
            if space2 b0 b1 then TrimLeftSpace s2
            else
              match s2 with
              | [] => s
              | b2 :: s3 => if space3 b0 b1 b2 then TrimLeftSpace s3 else s
              end
        end
  end.

(** [strings.TrimRightFunc(s, unicode.IsSpace)], on the reversed string:
    drop white-space runes from the back. *)
Fixpoint TrimRightSpace_rev (r : gostring) : gostring :=
  match r with
  | [] => []
  | b0 :: r1 =>
      if asciiSpace b0 then TrimRightSpace_rev r1
      else
        match r1 with
        | [] => r
        | b1 :: r2 =>
            if space2 b1 b0 then TrimRightSpace_rev r2
            else
              match r2 with
              | [] => r
              | b2 :: r3 =>
                  if space3 b2 b1 b0 then TrimRightSpace_rev r3 else r
              end
        end
  end.

Definition TrimRightSpace (s : gostring) : gostring :=
  rev (TrimRightSpace_rev (rev s)).

(** [strings.TrimSpace(s)]: [s] without leading and trailing white space,
    as defined by Unicode. *)
Definition TrimSpace (s : gostring) : gostring :=
  TrimRightSpace (TrimLeftSpace s).

End strings.

(** ** Package [path] *)

Module path.

(** The output buffer of [Clean] ([lazybuf]) is kept last byte first, so
    that [out.w] is its length, [out.append(c)] is [c :: out] and
    [out.w--] drops the head. *)

(** The inner loop of the [..] case:
<<
    out.w--
    for out.w > dotdot && out.index(out.w) != '/' { out.w-- }
>>
    [out.index(out.w)] is the byte that was dropped last. *)
Fixpoint unwind (out : list ascii) (dotdot : nat) : list ascii :=
  match out with
  | [] => []
  | c :: out' =>
      if (dotdot <? length out') && negb (is_slash c)
      then unwind out' dotdot
      else out'
  end.

(** [r+1 == n || path[r+1] == '/'] on the rest of the path. *)
Definition at_end_or_slash (rest : list ascii) : bool :=
  match rest with
  | [] => true
  | c :: _ => is_slash c
  end.

(** [for ; r < n && path[r] != '/'; r++ { out.append(path[r]) }]:
    the rest of the path and the buffer after the copy. *)
Fixpoint copy_elem (p out : list ascii) : list ascii * list ascii :=
  match p with
  | [] => ([], out)
  | c :: rest => if is_slash c then (p, out) else copy_elem rest (c :: out)
  end.

(** The main loop [for r < n { switch ... }] of [Clean]; [p] is
    [path[r:]].  Every round consumes a byte, so [length p] rounds of fuel
    are enough. *)
Fixpoint clean_loop (fuel : nat) (rooted : bool) (p out : list ascii)
    (dotdot : nat) : list ascii :=
  match fuel with
  | O => out
  | S fuel' =>
      match p with
      | [] => out
      | c :: rest =>
          if is_slash c then
            (* empty path element *)
            clean_loop fuel' rooted rest out dotdot
          else if is_dot c && at_end_or_slash rest then
            (* . element *)
            clean_loop fuel' rooted rest out dotdot
          else if is_dot c
                  && match rest with
                     | c1 :: rest2 => is_dot c1 && at_end_or_slash rest2
                     | [] => false
                     end then
            (* .. element: remove to last / *)
            let rest2 := tl rest in
            if dotdot <? length out then
              (* can backtrack *)
              clean_loop fuel' rooted rest2 (unwind out dotdot) dotdot
            else if negb rooted then
              (* cannot backtrack, but not rooted, so append .. element *)
              let out1 := if 0 <? length out then slash :: out else out in
              let out2 := dot :: dot :: out1 in
              clean_loop fuel' rooted rest2 out2 (length out2)
            else
              clean_loop fuel' rooted rest2 out dotdot
          else
            (* real path element: add slash if needed, copy element *)
            let out1 :=
              if (rooted && negb (length out =? 1))
                 || (negb rooted && negb (length out =? 0))
              then slash :: out else out in
            let '(rest', out2) := copy_elem p out1 in
            clean_loop fuel' rooted rest' out2 dotdot
      end
  end.

(** [path.Clean(path)]: the shortest path name equivalent to [path] by
    purely lexical processing. *)
Definition Clean (p : gostring) : gostring :=
  match p with
  | [] => [dot]
  | c :: rest =>
      let rooted := is_slash c in
      let out :=
        if rooted
        then clean_loop (length p) true rest [slash] 1
        else clean_loop (length p) false p [] 0 in
      match out with
      | [] => [dot]
      | _ :: _ => rev out
      end
  end.

(** Strip trailing slashes: [for len(path) > 0 && path[len(path)-1] == '/'],
    on the reversed path. *)
Fixpoint strip_slashes_rev (r : list ascii) : list ascii :=
  match r with
  | c :: r' => if is_slash c then strip_slashes_rev r' else r
  | [] => []
  end.

(** The bytes after the last slash, on the reversed path, last first. *)
Fixpoint last_elem_rev (r : list ascii) : list ascii :=
  match r with
  | c :: r' => if is_slash c then [] else c :: last_elem_rev r'
  | [] => []
  end.

(** [path.Base(path)]: the last element of [path]. *)
Definition Base (p : gostring) : gostring :=
  match p with
  | [] => [dot]
  | _ :: _ =>
      match rev (last_elem_rev (strip_slashes_rev (rev p))) with
      | [] => [slash]
      | b => b
      end
  end.

(** [path.Join(a, b)]: the elements from the first non-empty one on,
    joined by slashes and then cleaned; the empty string when both are
    empty. *)
Definition Join (a b : gostring) : gostring :=
  match a with
  | [] =>
      match b with
      | [] => []
      | _ :: _ => Clean b
      end
  | _ :: _ => Clean (a ++ slash :: b)
  end.

End path.

(** ** Package [filepath] *)

Module filepath.

(** The scan of [filepath.Ext] from the last byte backwards; [acc] holds
    the bytes already passed, in path order. *)
Fixpoint ext_scan (r acc : list ascii) : list ascii :=
  match r with
  | [] => []
  | c :: r' =>
      if is_slash c then []
      else if is_dot c then c :: acc
      else ext_scan r' (c :: acc)
  end.

(** [filepath.Ext(path)]: the suffix beginning at the final dot in the
    final element of [path]; empty if there is no dot. *)
Definition Ext (p : gostring) : gostring := ext_scan (rev p) [].

End filepath.

(** ** The path normalizer *)

(** [[[:alpha:]]]: an ASCII letter. *)
Definition is_alpha (c : ascii) : bool :=
  let n := nat_of_ascii c in
  ((65 <=? n) && (n <=? 90)) || ((97 <=? n) && (n <=? 122)).

(** [volumePrefixRegex] is [^[[:alpha:]]:], which can only match at the
    start of the text: does [name] start with a volume identifier? *)
Definition volumePrefixRegex_MatchString (name : gostring) : bool :=
  match name with
  | c :: c' :: _ => is_alpha c && Ascii.eqb c' colon
  | _ => false
  end.

(** [volumePrefixRegex.ReplaceAllString(name, "")] *)
Definition volumePrefixRegex_strip (name : gostring) : gostring :=
  if volumePrefixRegex_MatchString name then skipn 2 name else name.

(** [sanitize] of [s3_fs.go]: forward-slash paths even on Windows. *)
Definition sanitize (name : gostring) : gostring :=
  if string_eqb (strings.TrimSpace name) [] then name
  else
    let name := volumePrefixRegex_strip name in
    let name := strings.ReplaceAll name backslash slash in
    let hasTrailingSlash := strings.HasSuffix name (str "/") in
    let name := path.Clean name in
    if hasTrailingSlash then name ++ str "/" else name.

(** ** Data model *)

(** [time.Time] as seconds and nanoseconds since the Unix epoch. *)
Record Time : Type := time_Unix { unix_sec : Z; unix_nsec : Z }.

(** The zero [time.Time{}]: January 1 of year 1, UTC. *)
Definition time_zero : Time := time_Unix (-62135596800) 0.

(** [UploadedFileProperties]: the properties applied to future files;
    [None] is the nil pointer. *)
Record UploadedFileProperties : Type := {
  ACL : option gostring;
  CacheControl : option gostring;
  ContentType : option gostring;
  ContentEncoding : option gostring
}.

(** [Fs]: an FS object backed by S3.  The session and the S3 client are
    handles on the outside world; calls through them are the requests of
    [Request] below. *)
Record Fs : Type := {
  FileProps : option UploadedFileProperties;
  Bucket : gostring;
  RawMode : bool
}.

(** Modelled from the spec: the metadata record of the package
    ([FileInfo] and its constructor [NewFileInfo], declared in a source
    file that is not at hand), with what the specification gives it: a
    name, an is-directory flag, a size and a last-modified time. *)
Record FileInfo : Type := NewFileInfo {
  fi_name : gostring;
  fi_directory : bool;
  fi_sizeInBytes : Z;
  fi_modTime : Time
}.

(** The zero value [FileInfo{}]. *)
Definition FileInfo_zero : FileInfo := NewFileInfo [] false 0 time_zero.

Definition IsDir (fi : FileInfo) : bool := fi_directory fi.

(** Modelled from the spec: the file handle of the package ([File], its
    constructor [NewFile] and its method [Name], declared in a source file
    that is not at hand): it is made from the facade handle and a
    normalized path, and [Name()] gives that path back.  Its other methods
    are calls to the outside, see [Request]. *)
Record File : Type := NewFile { file_fs : Fs; Name : gostring }.

(** Errors of the AWS SDK: a plain [awserr.Error], or an
    [awserr.RequestFailure], which carries the HTTP status code. *)
Inductive awserr : Type :=
| AwsError (code message : gostring)
| AwsRequestFailure (code message : gostring) (statusCode : Z)
    (requestID : gostring).

(** Go [error] values met in the facade. *)
Inductive error : Type :=
| ErrNotImplemented
| ErrNotSupported
| ErrAlreadyOpened
| ErrInvalidSeek
| ErrNotExist                                   (* os.ErrNotExist *)
| PathError (Op Path : gostring) (Err : error)  (* *os.PathError *)
| SdkError (e : awserr)
| StreamError (message : gostring).

(** [errors.Is(err, os.ErrNotExist)]: [*os.PathError] unwraps to its
    [Err]. *)
Fixpoint IsNotExist (err : error) : bool :=
  match err with
  | ErrNotExist => true
  | PathError _ _ e => IsNotExist e
  | _ => false
  end.

(** [errors.As(err, &errRequestFailure)] followed by
    [errRequestFailure.StatusCode() == 404] on an error of the client. *)
Definition is_404 (e : awserr) : bool :=
  match e with
  | AwsRequestFailure _ _ status _ => (status =? 404)%Z
  | AwsError _ _ => false
  end.

(** Request shapes of the S3 API, with the fields the facade sets. *)
Record PutObjectInput : Type := {
  put_Bucket : gostring;
  put_Key : gostring;
  put_Body : list ascii;
  put_ACL : option gostring;
  put_CacheControl : option gostring;
  put_ContentType : option gostring;
  put_ContentEncoding : option gostring
}.

Record HeadObjectInput : Type := { head_Bucket : gostring; head_Key : gostring }.
Record HeadObjectOutput : Type := { ContentLength : Z; LastModified : Time }.
Record DeleteObjectInput : Type := { del_Bucket : gostring; del_Key : gostring }.
Record CopyObjectInput : Type := {
  copy_Bucket : gostring;
  copy_CopySource : gostring;
  copy_Key : gostring
}.
Record ListObjectsV2Input : Type := {
  list_Bucket : gostring;
  list_Prefix : gostring;
  list_MaxKeys : Z
}.
Record ListObjectsV2Output : Type := { KeyCount : Z }.
Record PutObjectAclInput : Type := {
  acl_Bucket : gostring;
  acl_Key : gostring;
  acl_ACL : gostring
}.

(** ** Calls to the outside world *)

(** What the facade asks of its collaborators: the S3 client
    ([fs.S3API]) and the file handle. *)
Inductive Request : Type :=
| PutObject (req : PutObjectInput)
| WaitUntilObjectExists (req : HeadObjectInput)
| HeadObject (req : HeadObjectInput)
| DeleteObject (req : DeleteObjectInput)
| CopyObject (req : CopyObjectInput)
| ListObjectsV2 (req : ListObjectsV2Input)
| PutObjectAcl (req : PutObjectAclInput)
| openWriteStream (file : File)
| openReadStream (file : File) (offset : Z)
| FileStat (file : File)
| Readdir (file : File) (n : Z)
| Close (file : File).

(** What comes back; [None] is a nil error. *)
Definition Response (r : Request) : Type :=
  match r with
  | PutObject _ => option awserr
  | WaitUntilObjectExists _ => option awserr
  | HeadObject _ => (HeadObjectOutput + awserr)%type
  | DeleteObject _ => option awserr
  | CopyObject _ => option awserr
  | ListObjectsV2 _ => (ListObjectsV2Output + awserr)%type
  | PutObjectAcl _ => option awserr
  | openWriteStream _ => option error
  | openReadStream _ _ => option error
  | FileStat _ => (FileInfo + error)%type
  | Readdir _ _ => (list FileInfo + error)%type
  | Close _ => option error
  end.

(** A method of the facade is a tree: it returns, or it makes a call and
    goes on with the answer. *)
Inductive Prog (A : Type) : Type :=
| Ret (a : A)
| Do (r : Request) (k : Response r -> Prog A).
Arguments Ret {A} a.
Arguments Do {A} r k.

Fixpoint bind {A B : Type} (p : Prog A) (f : A -> Prog B) : Prog B :=
  match p with
  | Ret a => f a
  | Do r k => Do r (fun x => bind (k x) f)
  end.

Definition call (r : Request) : Prog (Response r) := Do r Ret.

Declare Scope prog_scope.
Delimit Scope prog_scope with prog.
Notation "x <- p ;; q" := (bind p (fun x => q))
  (at level 61, p at next level, right associativity) : prog_scope.
Notation "' pat <- p ;; q" := (bind p (fun x => let 'pat := x in q))
  (at level 61, pat pattern, p at next level, right associativity) : prog_scope.
Local Open Scope prog_scope.

(** One call and its answer. *)
Record Event : Type := mkEvent { ev_req : Request; ev_resp : Response ev_req }.

(** The outside world: a state and an answer to every request. *)
Definition handler (S : Type) : Type :=
  forall r : Request, S -> Response r * S.

(** Run a method against a world: its result, the state of the world after
    it, and the calls made with their answers, in order. *)
Fixpoint run {A S : Type} (h : handler S) (p : Prog A) (s : S)
  : A * S * list Event :=
  match p with
  | Ret a => (a, s, [])
  | Do r k =>
      let '(x, s1) := h r s in
      let '(a, s2, tr) := run h (k x) s1 in
      (a, s2, mkEvent r x :: tr)
  end.

(** The requests of a trace. *)
Definition requests (tr : list Event) : list Request := map ev_req tr.

(** Lift an SDK error into a Go [error]. *)
Definition sdk_err (e : option awserr) : option error :=
  match e with
  | Some e' => Some (SdkError e')
  | None => None
  end.

(** ** Package [os]: open flags and permission bits *)

Module os.

(** The flags of [OpenFile] with their values on Linux. *)
Definition O_RDONLY : Z := 0.
Definition O_WRONLY : Z := 1.
Definition O_RDWR : Z := 2.
Definition O_CREATE : Z := 64.
Definition O_APPEND : Z := 1024.

End os.

(** [flag&bit != 0] *)
Definition has_flag (flag bit : Z) : bool := negb (Z.land flag bit =? 0)%Z.

(** ** The facade *)

(** [Fs.sanitize]: sanitize name if not in RawMode. *)
Definition Fs_sanitize (fs : Fs) (name : gostring) : gostring :=
  if RawMode fs then name else sanitize name.

(** [applyFileCreateProps]: copy the set fields of [p] onto the request. *)
Definition applyFileCreateProps (req : PutObjectInput)
    (p : UploadedFileProperties) : PutObjectInput :=
  {| put_Bucket := put_Bucket req;
     put_Key := put_Key req;
     put_Body := put_Body req;
     put_ACL := match ACL p with Some v => Some v | None => put_ACL req end;
     put_CacheControl :=
       match CacheControl p with
       | Some v => Some v
       | None => put_CacheControl req
       end;
     put_ContentType :=
       match ContentType p with
       | Some v => Some v
       | None => put_ContentType req
       end;
     put_ContentEncoding :=
       match ContentEncoding p with
       | Some v => Some v
       | None => put_ContentEncoding req
       end |}.

(** [req.ContentType = v] *)
Definition set_ContentType (req : PutObjectInput) (v : gostring)
  : PutObjectInput :=
  {| put_Bucket := put_Bucket req;
     put_Key := put_Key req;
     put_Body := put_Body req;
     put_ACL := put_ACL req;
     put_CacheControl := put_CacheControl req;
     put_ContentType := Some v;
     put_ContentEncoding := put_ContentEncoding req |}.

(** [OpenFile] opens a file. *)
Definition OpenFile (fs : Fs) (name : gostring) (flag : Z) (perm : Z)
  : Prog (option File * option error) :=
  let name := Fs_sanitize fs name in
  let file := NewFile fs name in
  (* Reading and writing is technically supported but can't lead to
     anything that makes sense *)
  if has_flag flag os.O_RDWR then Ret (None, Some ErrNotSupported)
  (* Appending is not supported by S3 *)
  else if has_flag flag os.O_APPEND then Ret (None, Some ErrNotSupported)
  else
    (* Creating is basically a write *)
    let flag :=
      if has_flag flag os.O_CREATE then Z.lor flag os.O_WRONLY else flag in
    (* We either write *)
    if has_flag flag os.O_WRONLY then
      err <- call (openWriteStream file) ;;
      Ret (Some file, err)
    else
      st <- call (FileStat file) ;;
      match st with
      | inr err => Ret (None, Some err)
      | inl info =>
          if IsDir info then Ret (Some file, None)
          else
            err <- call (openReadStream file 0) ;;
            Ret (Some file, err)
      end.

(** [Open] a file for reading. *)
Definition Open (fs : Fs) (name : gostring)
  : Prog (option File * option error) :=
  let name := Fs_sanitize fs name in
  OpenFile fs name os.O_RDONLY 511.

(** [forceRemove] doesn't error if a file does not exist. *)
Definition forceRemove (fs : Fs) (name : gostring) : Prog (option error) :=
  err <- call (DeleteObject {| del_Bucket := Bucket fs; del_Key := name |}) ;;
  Ret (sdk_err err).

(** [statDirectory]: the directory fallback of [Stat]. *)
Definition statDirectory (fs : Fs) (name : gostring)
  : Prog (option FileInfo * option error) :=
  let nameClean := path.Clean name in
  r <- call (ListObjectsV2
               {| list_Bucket := Bucket fs;
                  list_Prefix := strings.TrimPrefix nameClean (str "/");
                  list_MaxKeys := 1 |}) ;;
  match r with
  | inr err =>
      Ret (Some FileInfo_zero, Some (PathError (str "stat") name (SdkError err)))
  | inl out =>
      if (KeyCount out =? 0)%Z && negb (string_eqb name []) then
        Ret (None, Some (PathError (str "stat") name ErrNotExist))
      else
        Ret (Some (NewFileInfo (path.Base name) true 0 (time_Unix 0 0)), None)
  end.

(** [Stat] returns a FileInfo describing the named file. *)
Definition Stat (fs : Fs) (name : gostring)
  : Prog (option FileInfo * option error) :=
  let name := Fs_sanitize fs name in
  r <- call (HeadObject {| head_Bucket := Bucket fs; head_Key := name |}) ;;
  match r with
  | inr err =>
      if is_404 err then statDirectory fs name
      else
        Ret (Some FileInfo_zero,
             Some (PathError (str "stat") name (SdkError err)))
  | inl out =>
      if strings.HasSuffix name (str "/") then
        (* user asked for a directory, but this is a file *)
        Ret (Some (NewFileInfo name false 0 time_zero), None)
      else
        Ret (Some (NewFileInfo (path.Base name) false (ContentLength out)
                     (LastModified out)), None)
  end.

(** [Remove] a file. *)
Definition Remove (fs : Fs) (name : gostring) : Prog (option error) :=
  let name := Fs_sanitize fs name in
  '(_, err) <- Stat fs name ;;
  match err with
  | Some _ => Ret err
  | None => forceRemove fs name
  end.

(** [Mkdir] makes a directory in S3.  [OpenFile] gives a handle whenever it
    gives no error, so the branch without one is never taken. *)
Definition Mkdir (fs : Fs) (name : gostring) (perm : Z) : Prog (option error) :=
  let name := Fs_sanitize fs name in
  '(file, err) <- OpenFile fs (path.Clean name ++ str "/") os.O_CREATE perm ;;
  match err, file with
  | None, Some f => call (Close f)
  | _, _ => Ret err
  end.

(** [MkdirAll] creates a directory and all parent directories if
    necessary. *)
Definition MkdirAll (fs : Fs) (path : gostring) (perm : Z)
  : Prog (option error) :=
  Mkdir fs path perm.

(** The loop [for _, fi := range fis] of [RemoveAll] and the statement
    after it; [rec] is the recursive call [fs.RemoveAll]. *)
Fixpoint RemoveAll_range (rec : gostring -> Prog (option (option error)))
    (fs : Fs) (s3dir : File) (fis : list FileInfo)
  : Prog (option (option error)) :=
  match fis with
  | fi :: fis' =>
      let fullpath := path.Join (Name s3dir) (fi_name fi) in
      if IsDir fi then
        r <- rec fullpath ;;
        match r with
        | Some None => RemoveAll_range rec fs s3dir fis'
        | _ => Ret r
        end
      else
        err <- forceRemove fs fullpath ;;
        match err with
        | None => RemoveAll_range rec fs s3dir fis'
        | Some _ => Ret (Some err)
        end
  | [] =>
      (* finally remove the "file" representing the directory *)
      err <- forceRemove fs (Name s3dir ++ str "/") ;;
      Ret (Some err)
  end.

(** [RemoveAll] removes a path.  The recursion follows the listings that
    come back from the store, so the model bounds its depth by [fuel];
    the result [None] is a walk deeper than that, [Some err] is what the
    method returns. *)
Fixpoint RemoveAll (fuel : nat) (fs : Fs) (name : gostring)
  : Prog (option (option error)) :=
  match fuel with
  | O => Ret None
  | S fuel' =>
      let name := Fs_sanitize fs name in
      let s3dir := NewFile fs name in
      r <- call (Readdir s3dir 0) ;;
      match r with
      | inr err => Ret (Some (Some err))
      | inl fis => RemoveAll_range (RemoveAll fuel' fs) fs s3dir fis
      end
  end.

(** [Rename] a file.  The source assigns
    [oldname = fs.sanitize(newname)] and then
    [newname = fs.sanitize(oldname)]. *)
Definition Rename (fs : Fs) (oldname newname : gostring) : Prog (option error) :=
  let oldname := Fs_sanitize fs newname in
  let newname := Fs_sanitize fs oldname in
  if string_eqb oldname newname then Ret None
  else
    err <- call (CopyObject
                   {| copy_Bucket := Bucket fs;
                      copy_CopySource := Bucket fs ++ oldname;
                      copy_Key := newname |}) ;;
    match err with
    | Some e => Ret (Some (SdkError e))
    | None =>
        err <- call (DeleteObject
                       {| del_Bucket := Bucket fs; del_Key := oldname |}) ;;
        Ret (sdk_err err)
    end.

(** The ACL [Chmod] picks from the "other" read and write bits. *)
Definition chmod_acl (mode : Z) : gostring :=
  let otherRead := has_flag mode (Z.shiftl 1 2) in
  let otherWrite := has_flag mode (Z.shiftl 1 1) in
  if otherRead && otherWrite then str "public-read-write"
  else if otherRead then str "public-read"
  else str "private".

(** [Chmod] doesn't exist in S3 but could be implemented by analyzing
    ACLs. *)
Definition Chmod (fs : Fs) (name : gostring) (mode : Z) : Prog (option error) :=
  let name := Fs_sanitize fs name in
  let acl := chmod_acl mode in
  err <- call (PutObjectAcl
                 {| acl_Bucket := Bucket fs; acl_Key := name; acl_ACL := acl |}) ;;
  Ret (sdk_err err).

(** [Chown] and [Chtimes] are not supported. *)
Definition Chown (fs : Fs) (name : gostring) (uid gid : Z) : Prog (option error) :=
  Ret (Some ErrNotSupported).

Definition Chtimes (fs : Fs) (name : gostring) (atime mtime : Time)
  : Prog (option error) :=
  Ret (Some ErrNotSupported).

Section Create.

(** [mime.TypeByExtension]: the MIME table of the host is not part of the
    package. *)
Variable mime_TypeByExtension : gostring -> gostring.

(** The request [Create] builds before it calls [PutObject]. *)
Definition Create_request (fs : Fs) (name : gostring) : PutObjectInput :=
  let req :=
    {| put_Bucket := Bucket fs;
       put_Key := name;
       put_Body := [];
       put_ACL := None;
       put_CacheControl := None;
       put_ContentType := None;
       put_ContentEncoding := None |} in
  let req :=
    match FileProps fs with
    | Some p => applyFileCreateProps req p
    | None => req
    end in
  (* If no Content-Type was specified, we'll guess one *)
  match put_ContentType req with
  | None => set_ContentType req (mime_TypeByExtension (filepath.Ext name))
  | Some _ => req
  end.

(** [Create] a file. *)
Definition Create (fs : Fs) (name : gostring)
  : Prog (option File * option error) :=
  errPut <- call (PutObject (Create_request fs name)) ;;
  match errPut with
  | Some e => Ret (None, Some (SdkError e))
  | None =>
      '(file, err) <- OpenFile fs name os.O_WRONLY 488 ;;
      match err with
      | Some _ => Ret (file, err)
      | None =>
          (* wait until S3 reports the object exists *)
          w <- call (WaitUntilObjectExists
                       {| head_Bucket := Bucket fs; head_Key := name |}) ;;
          Ret (file, sdk_err w)
      end
  end.

End Create.

(** ** Reading a method and its result *)

(** The first call a method makes, if it makes one. *)
Definition first_request {A : Type} (p : Prog A) : option Request :=
  match p with
  | Ret _ => None
  | Do r _ => Some r
  end.

(** The number of slashes at the front of a buffer. *)
Fixpoint leading_slashes (r : list ascii) : nat :=
  match r with
  | c :: r' => if is_slash c then S (leading_slashes r') else 0
  | [] => 0
  end.

(** The number of separators a path ends in. *)
Definition trailing_slashes (s : gostring) : nat := leading_slashes (rev s).

(** Is the error of a result a not-found error? *)
Definition is_not_found (err : option error) : bool :=
  match err with
  | Some e => IsNotExist e
  | None => false
  end.

(** The name [sanitize] hands to [path.Clean]: without its volume prefix
    and with forward slashes. *)
Definition converted (name : gostring) : gostring :=
  strings.ReplaceAll (volumePrefixRegex_strip name) backslash slash.

(** A handle on [bucket] with no default properties, not in raw mode. *)
Definition fs_plain (bucket : gostring) : Fs :=
  {| FileProps := None; Bucket := bucket; RawMode := false |}.

(** A world without state that gives fixed answers: [head] to
    [HeadObject], [listing] to [ListObjectsV2], [entries] to [Readdir],
    and success to every other call. *)
Definition canned (head : HeadObjectOutput + awserr)
    (listing : ListObjectsV2Output + awserr) (entries : list FileInfo)
  : handler unit :=
  fun r s =>
    (match r return Response r with
     | PutObject _ => None
     | WaitUntilObjectExists _ => None
     | HeadObject _ => head
     | DeleteObject _ => None
     | CopyObject _ => None
     | ListObjectsV2 _ => listing
     | PutObjectAcl _ => None
     | openWriteStream _ => None
     | openReadStream _ _ => None
     | FileStat _ => inl FileInfo_zero
     | Readdir _ _ => inl entries
     | Close _ => None
     end, s).

(** The answer of S3 to a request for an object that is not there. *)
Definition not_found_404 : awserr :=
  AwsRequestFailure (str "NotFound") (str "Not Found") 404 (str "req-1").

(** The answer carried by an event, when the event is a point lookup or
    a listing. *)
Definition head_answer (ev : Event) : option (HeadObjectOutput + awserr) :=
  match ev with
  | mkEvent r x =>
      match r return Response r -> option (HeadObjectOutput + awserr) with
      | HeadObject _ => fun x => Some x
      | _ => fun _ => None
      end x
  end.

Definition listing_answer (ev : Event)
  : option (ListObjectsV2Output + awserr) :=
  match ev with
  | mkEvent r x =>
      match r return Response r -> option (ListObjectsV2Output + awserr) with
      | ListObjectsV2 _ => fun x => Some x
      | _ => fun _ => None
      end x
  end.

(** A byte of a white-space rune: one of [asciiSpace], or a byte of a
    multi-byte encoding. *)
Definition space_byte (c : ascii) : Prop :=
  strings.asciiSpace c = true \/ 128 <= nat_of_ascii c.

(** ** [path.Clean] element by element

    A second reading of [path.Clean], after its documentation: the path is
    cut at its slashes, empty and [.] elements are dropped, a [..] element
    removes the element before it, or is kept when there is nothing to
    remove and the path is not rooted.  The byte loop above is proved to
    compute it. *)

Module CleanSpec.

(** The elements of a path: what stands between its slashes. *)
Fixpoint split_slash (s : list ascii) : list (list ascii) :=
  match s with
  | [] => [[]]
  | c :: s' =>
      if is_slash c then [] :: split_slash s'
      else
        match split_slash s' with
        | e :: l => (c :: e) :: l
        | [] => [[c]]
        end
  end.

(** The bytes of the first element, and the path from its end on. *)
Fixpoint take_elem (p : list ascii) : list ascii :=
  match p with
  | [] => []
  | c :: r => if is_slash c then [] else c :: take_elem r
  end.

Fixpoint drop_elem (p : list ascii) : list ascii :=
  match p with
  | [] => []
  | c :: r => if is_slash c then p else drop_elem r
  end.

(** The cleaned path so far: the number of leading [..] elements, and the
    elements after them, last first. *)
Definition stack : Type := (list (list ascii) * nat)%type.

Definition dotdot_elem : list ascii := [dot; dot].

Definition step (rooted : bool) (st : stack) (e : list ascii) : stack :=
  let '(reals, n) := st in
  match e with
  | [] => st
  | _ :: _ =>
      if string_eqb e [dot] then st
      else if string_eqb e dotdot_elem then
        match reals with
        | _ :: reals' => (reals', n)
        | [] => if rooted then st else ([], S n)
        end
      else (e :: reals, n)
  end.

Definition run_elems (rooted : bool) (p : list ascii) (st : stack) : stack :=
  fold_left (step rooted) (split_slash p) st.

(** All elements of a stack, last first. *)
Definition stack_elems (st : stack) : list (list ascii) :=
  fst st ++ repeat dotdot_elem (snd st).

(** Elements joined by slashes. *)
Fixpoint join (es : list (list ascii)) : list ascii :=
  match es with
  | [] => []
  | e :: es' =>
      match es' with
      | [] => e
      | _ :: _ => e ++ slash :: join es'
      end
  end.

(** The same, from a list that is last first, as a buffer that is last
    byte first. *)
Fixpoint rjoin (es : list (list ascii)) : list ascii :=
  match es with
  | [] => []
  | e :: es' =>
      match es' with
      | [] => rev e
      | _ :: _ => rev e ++ slash :: rjoin es'
      end
  end.

(** The output buffer of the byte loop that stands for a stack. *)
Definition rout (rooted : bool) (st : stack) : list ascii :=
  rjoin (stack_elems st) ++ (if rooted then [slash] else []).

Definition render (rooted : bool) (st : stack) : list ascii :=
  let body := join (rev (stack_elems st)) in
  if rooted then slash :: body
  else match body with [] => [dot] | _ :: _ => body end.

Definition Clean (p : gostring) : gostring :=
  match p with
  | [] => [dot]
  | c :: _ =>
      let rooted := is_slash c in
      render rooted (run_elems rooted p ([], 0))
  end.

(** An element the loop copies: not empty, without a slash, and neither
    [.] nor [..]. *)
Definition real_elem (e : list ascii) : Prop :=
  e <> [] /\ Forall (fun c => is_slash c = false) e
  /\ e <> [dot] /\ e <> dotdot_elem.

(** A stack the loop can reach: real elements only, and no leading [..]
    in a rooted path. *)
Definition wf_stack (rooted : bool) (st : stack) : Prop :=
  Forall real_elem (fst st) /\ (rooted = true -> snd st = 0).

(** An element without a slash. *)
Definition no_slash (e : list ascii) : Prop :=
  Forall (fun c => is_slash c = false) e.

(** What lies in the buffer under one more element on top of [st]. *)
Definition under (rooted : bool) (st : stack) : list ascii :=
  match stack_elems st with
  | [] => rout rooted st
  | _ :: _ => slash :: rout rooted st
  end.

(** The weight of a stack: nothing when it is empty, and otherwise the
    length of its buffer and one more for the separator that the next
    element needs. *)
Definition weight (st : stack) : nat :=
  match stack_elems st with
  | [] => 0
  | _ :: _ => S (length (rjoin (stack_elems st)))
  end.

End CleanSpec.

(** ** The rest of the package *)

(** [NewFs] creates a new Fs object writing files to a given S3 bucket:
    no default properties, and paths are normalized. *)
Definition NewFs (bucket : gostring) : Fs :=
  {| FileProps := None; Bucket := bucket; RawMode := false |}.

(** [Fs.Name] returns the type of FS object this is. *)
Definition Fs_Name (fs : Fs) : gostring := str "s3".

(** [s3manager.UploadInput], the request of a streamed upload, with the
    fields the package sets. *)
Record UploadInput : Type := {
  up_Bucket : gostring;
  up_Key : gostring;
  up_Body : list ascii;
  up_ACL : option gostring;
  up_CacheControl : option gostring;
  up_ContentType : option gostring;
  up_ContentEncoding : option gostring
}.

(** [applyFileWriteProps]: copy the set fields of [p] onto the upload
    request. *)
Definition applyFileWriteProps (req : UploadInput)
    (p : UploadedFileProperties) : UploadInput :=
  {| up_Bucket := up_Bucket req;
     up_Key := up_Key req;
     up_Body := up_Body req;
     up_ACL := match ACL p with Some v => Some v | None => up_ACL req end;
     up_CacheControl :=
       match CacheControl p with
       | Some v => Some v
       | None => up_CacheControl req
       end;
     up_ContentType :=
       match ContentType p with
       | Some v => Some v
       | None => up_ContentType req
       end;
     up_ContentEncoding :=
       match ContentEncoding p with
       | Some v => Some v
       | None => up_ContentEncoding req
       end |}.

(** The upload request that carries the fields of a put request. *)
Definition upload_of_put (req : PutObjectInput) : UploadInput :=
  {| up_Bucket := put_Bucket req;
     up_Key := put_Key req;
     up_Body := put_Body req;
     up_ACL := put_ACL req;
     up_CacheControl := put_CacheControl req;
     up_ContentType := put_ContentType req;
     up_ContentEncoding := put_ContentEncoding req |}.

(** The error a call was answered with, as the Go [error] the facade
    sees; [None] when the call succeeded. *)
Definition event_error (ev : Event) : option error :=
  match ev with
  | mkEvent r x =>
      match r return Response r -> option error with
      | PutObject _ => sdk_err
      | WaitUntilObjectExists _ => sdk_err
      | HeadObject _ =>
          fun x => match x with inl _ => None | inr e => Some (SdkError e) end
      | DeleteObject _ => sdk_err
      | CopyObject _ => sdk_err
      | ListObjectsV2 _ =>
          fun x => match x with inl _ => None | inr e => Some (SdkError e) end
      | PutObjectAcl _ => sdk_err
      | openWriteStream _ => fun x => x
      | openReadStream _ _ => fun x => x
      | FileStat _ => fun x => match x with inl _ => None | inr e => Some e end
      | Readdir _ _ => fun x => match x with inl _ => None | inr e => Some e end
      | Close _ => fun x => x
      end x
  end.

(** Is the request a deletion? *)
Definition is_DeleteObject (r : Request) : bool :=
  match r with
  | DeleteObject _ => true
  | _ => false
  end.

(** The requests of a walk of [RemoveAll] on [bucket]: a listing of a
    directory handle, or a deletion in [bucket]. *)
Definition walk_request (bucket : gostring) (r : Request) : bool :=
  match r with
  | Readdir _ _ => true
  | DeleteObject rq => string_eqb (del_Bucket rq) bucket
  | _ => false
  end.

(** The files a listing of a directory handle came back with, when the
    event is such a listing. *)
Definition readdir_answer (ev : Event) : option (list FileInfo + error) :=
  match ev with
  | mkEvent r x =>
      match r return Response r -> option (list FileInfo + error) with
      | Readdir _ _ => fun x => Some x
      | _ => fun _ => None
      end x
  end.

(** A result and a trace that tell the same story: without an error,
    every call was answered without one; with an error, that error is what
    the last call was answered, and every call before it went well. *)
Definition faithful (err : option error) (tr : list Event) : Prop :=
  match err with
  | None => Forall (fun ev => event_error ev = None) tr
  | Some e =>
      exists tr0 ev,
        tr = tr0 ++ [ev] /\ event_error ev = Some e
        /\ Forall (fun ev => event_error ev = None) tr0
  end.

(** * Examples

    The table of the tests of [path.Clean] in the Go distribution, and the
    paths of the specification. *)

Example Clean_ex1 : path.Clean (str "a/c") = str "a/c". Proof. reflexivity. Qed.
Example Clean_ex2 : path.Clean (str "a//c") = str "a/c". Proof. reflexivity. Qed.
Example Clean_ex3 : path.Clean (str "abc/def/../ghi/../jkl") = str "abc/jkl". Proof. reflexivity. Qed.
Example Clean_ex4 : path.Clean (str "/../abc") = str "/abc". Proof. reflexivity. Qed.
Example Clean_ex5 : path.Clean (str "../../abc/./d/") = str "../../abc/d". Proof. reflexivity. Qed.
Example Clean_ex6 : path.Clean (str "abc/def/../../..") = str "..". Proof. reflexivity. Qed.
Example Clean_ex7 : path.Clean (str "abc/./../def") = str "def". Proof. reflexivity. Qed.
Example Clean_ex8 : path.Clean (str "abc//./../def") = str "def". Proof. reflexivity. Qed.
Example Clean_ex9 : path.Clean (str "abc/../../././../def") = str "../../def". Proof. reflexivity. Qed.
Example Clean_ex10 : path.Clean (str "/") = str "/". Proof. reflexivity. Qed.
Example Clean_ex11 : path.Clean (str "") = str ".". Proof. reflexivity. Qed.
Example Clean_ex12 : path.Clean (str "abc/def/ghi/../jkl") = str "abc/def/jkl". Proof. reflexivity. Qed.
Example Clean_ex13 : path.Clean (str "////../..") = str "/". Proof. reflexivity. Qed.
Example Clean_ex14 : path.Clean (str "..a/.b/...") = str "..a/.b/...". Proof. reflexivity. Qed.
Example Base_ex1 : path.Base (str "/a/b") = str "b". Proof. reflexivity. Qed.
Example Base_ex2 : path.Base (str "a/b/") = str "b". Proof. reflexivity. Qed.
Example Base_ex3 : path.Base (str "///") = str "/". Proof. reflexivity. Qed.
Example Trim_ex1 : strings.TrimSpace (str "  a b  ") = str "a b". Proof. reflexivity. Qed.
Example sanitize_ex1 : sanitize (str "C:\a\b") = str "/a/b". Proof. reflexivity. Qed.
Example sanitize_ex2 : sanitize (str "/a/../b/") = str "/b/". Proof. reflexivity. Qed.
Example sanitize_ex3 : sanitize (str "a\b" ++ [backslash]) = str "a/b/". Proof. reflexivity. Qed.
Example sanitize_ex4 : sanitize (str "   ") = str "   ". Proof. reflexivity. Qed.
Example sanitize_ex5 : sanitize (str "dir/") = str "dir/". Proof. reflexivity. Qed.
Example sanitize_ex6 : sanitize (str "dir") = str "dir". Proof. reflexivity. Qed.
Example sanitize_ex7 : sanitize (str "/") = str "//". Proof. reflexivity. Qed.
Example sanitize_ex8 : sanitize (str "a:b:c") = str "b:c". Proof. reflexivity. Qed.

(** * Proofs *)

(** ** Bytes and strings *)

Lemma is_slash_true (c : ascii) : is_slash c = true <-> c = slash.
Proof. apply Ascii.eqb_eq. Qed.

Lemma is_slash_false (c : ascii) : is_slash c = false <-> c <> slash.
Proof. apply Ascii.eqb_neq. Qed.

Lemma is_dot_true (c : ascii) : is_dot c = true <-> c = dot.
Proof. apply Ascii.eqb_eq. Qed.

Lemma string_eqb_eq (a b : gostring) : string_eqb a b = true <-> a = b.
Proof.
  revert b; induction a as [|x a IH]; intros [|y b]; simpl;
    try (split; [discriminate | discriminate]); try tauto.
  rewrite andb_true_iff, Ascii.eqb_eq, IH.
  split; [intros [-> ->]; reflexivity | intros H; inversion H; auto].
Qed.

Lemma string_eqb_refl (a : gostring) : string_eqb a a = true.
Proof. apply string_eqb_eq; reflexivity. Qed.

Lemma string_eqb_neq (a b : gostring) : string_eqb a b = false <-> a <> b.
Proof.
  rewrite <- string_eqb_eq. destruct (string_eqb a b); split; congruence.
Qed.

(** [HasSuffix(s, "/")] looks at the last byte. *)
Lemma HasSuffix_slash (s : gostring) :
  strings.HasSuffix s (str "/")
  = match rev s with c :: _ => is_slash c | [] => false end.
Proof.
  destruct (rev s) as [|c r] eqn:E.
  - apply (f_equal (@rev ascii)) in E. rewrite rev_involutive in E.
    subst s. reflexivity.
  - apply (f_equal (@rev ascii)) in E. rewrite rev_involutive in E.
    subst s. cbn [rev]. unfold strings.HasSuffix.
    rewrite length_app. cbn [str String.list_ascii_of_string length].
    replace (length (rev r) + 1 - 1) with (length (rev r) + 0) by lia.
    rewrite skipn_app, Nat.add_0_r, skipn_all.
    replace (length (rev r) - length (rev r)) with 0 by lia.
    cbn [skipn app string_eqb]. rewrite andb_true_r.
    replace (1 <=? length (rev r) + 1) with true
      by (symmetry; apply Nat.leb_le; lia).
    reflexivity.
Qed.

(** ** The byte loop of [path.Clean] computes the element reading *)

Module CleanProofs.
Import CleanSpec.

Lemma copy_elem_take_drop (p out : list ascii) :
  path.copy_elem p out = (drop_elem p, rev (take_elem p) ++ out).
Proof.
  revert out; induction p as [|c r IH]; intros out; simpl; [reflexivity|].
  destruct (is_slash c); [reflexivity|].
  rewrite IH. simpl. rewrite <- app_assoc. reflexivity.
Qed.

Lemma drop_elem_head (p : list ascii) :
  drop_elem p = [] \/ exists r, drop_elem p = slash :: r.
Proof.
  induction p as [|c r IH]; simpl; [left; reflexivity|].
  destruct (is_slash c) eqn:E; [|exact IH].
  right. apply is_slash_true in E. subst. eexists; reflexivity.
Qed.

Lemma drop_elem_length (p : list ascii) : length (drop_elem p) <= length p.
Proof.
  induction p as [|c r IH]; simpl; [lia|].
  destruct (is_slash c); simpl; lia.
Qed.

Lemma take_elem_no_slash (p : list ascii) :
  Forall (fun c => is_slash c = false) (take_elem p).
Proof.
  induction p as [|c r IH]; simpl; [constructor|].
  destruct (is_slash c) eqn:E; constructor; assumption.
Qed.

Lemma split_slash_nonempty (p : list ascii) : split_slash p <> [].
Proof.
  induction p as [|c r IH]; simpl; [discriminate|].
  destruct (is_slash c); [discriminate|].
  destruct (split_slash r); [congruence | discriminate].
Qed.

Lemma split_slash_take_drop (p : list ascii) :
  split_slash p =
  take_elem p :: match drop_elem p with
                 | [] => []
                 | _ :: r => split_slash r
                 end.
Proof.
  induction p as [|c r IH]; simpl; [reflexivity|].
  destruct (is_slash c); [reflexivity|].
  rewrite IH. reflexivity.
Qed.

Lemma step_nil (rooted : bool) (st : stack) : step rooted st [] = st.
Proof. destruct st; reflexivity. Qed.

Lemma run_elems_nil (rooted : bool) (st : stack) : run_elems rooted [] st = st.
Proof. unfold run_elems; simpl. apply step_nil. Qed.

Lemma run_elems_slash (rooted : bool) (c : ascii) (r : list ascii) (st : stack) :
  is_slash c = true -> run_elems rooted (c :: r) st = run_elems rooted r st.
Proof.
  intros E. unfold run_elems. simpl. rewrite E. simpl.
  rewrite step_nil. reflexivity.
Qed.

Lemma run_elems_elem (rooted : bool) (p : list ascii) (st : stack) :
  run_elems rooted p st
  = run_elems rooted (drop_elem p) (step rooted st (take_elem p)).
Proof.
  unfold run_elems at 1. rewrite split_slash_take_drop. simpl.
  destruct (drop_elem_head p) as [E | [r E]]; rewrite E.
  - simpl. rewrite run_elems_nil. reflexivity.
  - rewrite run_elems_slash by reflexivity. reflexivity.
Qed.

Lemma at_end_or_slash_take (r : list ascii) :
  path.at_end_or_slash r = true -> take_elem r = [] /\ drop_elem r = r.
Proof.
  destruct r as [|c r]; simpl; [auto|]. intros ->. auto.
Qed.

Lemma take_elem_nil (r : list ascii) :
  take_elem r = [] -> path.at_end_or_slash r = true.
Proof.
  destruct r as [|c r]; simpl; [reflexivity|].
  destruct (is_slash c); [reflexivity | discriminate].
Qed.

Lemma string_eqb_cons (x y : ascii) (a b : gostring) :
  string_eqb (x :: a) (y :: b) = Ascii.eqb x y && string_eqb a b.
Proof. reflexivity. Qed.

(** One round of the loop on a byte that is no slash, told by the element
    that starts there. *)
Lemma clean_loop_elem (fuel : nat) (rooted : bool) (c : ascii)
    (rest out : list ascii) (dotdot : nat) :
  is_slash c = false ->
  path.clean_loop (S fuel) rooted (c :: rest) out dotdot =
  let e := take_elem (c :: rest) in
  let p' := drop_elem (c :: rest) in
  if string_eqb e [dot] then path.clean_loop fuel rooted p' out dotdot
  else if string_eqb e dotdot_elem then
    if dotdot <? length out then
      path.clean_loop fuel rooted p' (path.unwind out dotdot) dotdot
    else if negb rooted then
      let out1 := if 0 <? length out then slash :: out else out in
      path.clean_loop fuel rooted p' (dot :: dot :: out1)
        (length (dot :: dot :: out1))
    else path.clean_loop fuel rooted p' out dotdot
  else
    let out1 :=
      if (rooted && negb (length out =? 1))
         || (negb rooted && negb (length out =? 0))
      then slash :: out else out in
    path.clean_loop fuel rooted p' (rev e ++ out1) dotdot.
Proof.
  intros Hc. cbn zeta. cbn [path.clean_loop]. rewrite Hc.
  rewrite copy_elem_take_drop. unfold dotdot_elem.
  cbn [take_elem drop_elem]. rewrite Hc. rewrite !string_eqb_cons.
  fold (is_dot c).
  destruct (is_dot c) eqn:Hd; cbn [andb].
  - destruct (path.at_end_or_slash rest) eqn:H1.
    + destruct (at_end_or_slash_take _ H1) as [-> ->]. reflexivity.
    + destruct rest as [|c1 rest2]; [discriminate|].
      cbn in H1. cbn [take_elem drop_elem tl]. rewrite H1.
      rewrite !string_eqb_cons. fold (is_dot c1).
      replace (string_eqb (c1 :: take_elem rest2) []) with false
        by reflexivity.
      destruct (is_dot c1) eqn:Hd1; cbn [andb].
      * destruct (path.at_end_or_slash rest2) eqn:H2.
        -- destruct (at_end_or_slash_take _ H2) as [-> ->]. reflexivity.
        -- assert (take_elem rest2 <> []) as Hne.
           { intros E. apply take_elem_nil in E. congruence. }
           destruct (take_elem rest2) as [|x xs] eqn:Et; [congruence|].
           reflexivity.
      * reflexivity.
  - reflexivity.
Qed.

Lemma real_elem_nonempty (e : list ascii) : real_elem e -> e <> [].
Proof. intros H; apply H. Qed.

Lemma real_elem_no_slash (e : list ascii) : real_elem e -> no_slash e.
Proof. intros H; apply H. Qed.

Lemma rout_push (rooted : bool) (e : list ascii) (reals : list (list ascii))
    (n : nat) :
  rout rooted (e :: reals, n) = rev e ++ under rooted (reals, n).
Proof.
  unfold under, rout, stack_elems. cbn [fst snd app rjoin].
  destruct (reals ++ repeat dotdot_elem n); simpl.
  - reflexivity.
  - rewrite <- app_assoc. reflexivity.
Qed.

Lemma rout_dotdot (n : nat) :
  rout false ([], S n)
  = dot :: dot :: (if 0 <? length (rout false ([], n))
                   then slash :: rout false ([], n)
                   else rout false ([], n)).
Proof.
  unfold rout, stack_elems. cbn [fst snd app repeat]. rewrite !app_nil_r.
  destruct n as [|n]; [reflexivity|].
  cbn [repeat rjoin]. cbn [repeat rjoin rev app dotdot_elem length Nat.ltb Nat.leb].
  destruct (repeat dotdot_elem n); reflexivity.
Qed.

Lemma under_length (rooted : bool) (st : stack) :
  length (rout rooted st) <= length (under rooted st).
Proof. unfold under. destruct (stack_elems st); simpl; lia. Qed.

Lemma rout_base_le (rooted : bool) (reals : list (list ascii)) (n : nat) :
  length (rout rooted ([], n)) <= length (rout rooted (reals, n)).
Proof.
  induction reals as [|e reals IH]; [lia|].
  rewrite rout_push, length_app.
  pose proof (under_length rooted (reals, n)). lia.
Qed.

Lemma rout_base_lt (rooted : bool) (e : list ascii)
    (reals : list (list ascii)) (n : nat) :
  e <> [] ->
  length (rout rooted ([], n)) < length (rout rooted (e :: reals, n)).
Proof.
  intros He. rewrite rout_push, length_app, length_rev.
  pose proof (under_length rooted (reals, n)).
  pose proof (rout_base_le rooted reals n).
  destruct e; [congruence|simpl; lia].
Qed.

(** Dropping the last element from the buffer. *)
Lemma unwind_elem_base (l B : list ascii) (d : nat) :
  l <> [] -> no_slash l -> length B = d ->
  path.unwind (l ++ B) d = B.
Proof.
  intros Hne Hns HB. induction l as [|c l IH]; [congruence|].
  inversion Hns as [|? ? Hc Hl]; subst. cbn [app path.unwind].
  rewrite Hc. cbn [negb]. rewrite andb_true_r.
  destruct l as [|c' l'].
  - cbn [app]. rewrite Nat.ltb_irrefl. reflexivity.
  - replace (length B <? length ((c' :: l') ++ B)) with true.
    + apply IH; [discriminate | assumption].
    + symmetry. apply Nat.ltb_lt. rewrite length_app. simpl. lia.
Qed.

Lemma unwind_elem_slash (l B : list ascii) (d : nat) :
  l <> [] -> no_slash l -> d <= length B ->
  path.unwind (l ++ slash :: B) d = B.
Proof.
  intros Hne Hns HB. induction l as [|c l IH]; [congruence|].
  inversion Hns as [|? ? Hc Hl]; subst. cbn [app path.unwind].
  rewrite Hc. cbn [negb]. rewrite andb_true_r.
  replace (d <? length (l ++ slash :: B)) with true.
  2:{ symmetry. apply Nat.ltb_lt. rewrite length_app. simpl. lia. }
  destruct l as [|c' l'].
  - cbn [app path.unwind].
    replace (is_slash slash) with true by reflexivity.
    rewrite andb_false_r. reflexivity.
  - apply IH; [discriminate | assumption].
Qed.

Lemma unwind_rout (rooted : bool) (e : list ascii)
    (reals : list (list ascii)) (n : nat) :
  e <> [] -> no_slash e ->
  path.unwind (rout rooted (e :: reals, n)) (length (rout rooted ([], n)))
  = rout rooted (reals, n).
Proof.
  intros Hne Hns. rewrite rout_push. unfold under.
  assert (rev e <> []) as Hne'.
  { intros E. apply (f_equal (@length ascii)) in E.
    rewrite length_rev in E. destruct e; [congruence | discriminate]. }
  assert (no_slash (rev e)) as Hns'.
  { unfold no_slash. apply Forall_rev. exact Hns. }
  destruct (stack_elems (reals, n)) as [|x xs] eqn:E.
  - apply unwind_elem_base; auto.
    unfold stack_elems in E. cbn [fst snd] in E.
    apply app_eq_nil in E. destruct E as [-> E].
    reflexivity.
  - apply unwind_elem_slash; auto. apply rout_base_le.
Qed.

Lemma stack_elems_nonempty (rooted : bool) (st : stack) :
  wf_stack rooted st -> Forall (fun e => e <> []) (stack_elems st).
Proof.
  intros [Hr _]. unfold stack_elems. apply Forall_app. split.
  - eapply Forall_impl; [|exact Hr]. intros e He. apply He.
  - apply Forall_forall. intros x Hx. apply repeat_spec in Hx. subst.
    discriminate.
Qed.

Lemma rjoin_nil (es : list (list ascii)) :
  Forall (fun e => e <> []) es -> rjoin es = [] -> es = [].
Proof.
  intros H E. destruct es as [|e es]; [reflexivity|].
  inversion H as [|? ? He _]; subst. exfalso. simpl in E.
  assert (rev e = []) as E'.
  { destruct es; [exact E|]. apply app_eq_nil in E. apply E. }
  apply (f_equal (@length ascii)) in E'. rewrite length_rev in E'.
  destruct e; [congruence|discriminate].
Qed.

(** The "add slash if needed" test tells whether the stack is empty. *)
Lemma need_slash (rooted : bool) (st : stack) :
  wf_stack rooted st ->
  (if (rooted && negb (length (rout rooted st) =? 1))
      || (negb rooted && negb (length (rout rooted st) =? 0))
   then slash :: rout rooted st else rout rooted st)
  = under rooted st.
Proof.
  intros Hwf. pose proof (stack_elems_nonempty _ _ Hwf) as Hne.
  unfold under, rout.
  destruct (stack_elems st) as [|x xs] eqn:E.
  - destruct rooted; reflexivity.
  - assert (rjoin (x :: xs) <> []) as Hj.
    { intros Hj. apply rjoin_nil in Hj; [discriminate | exact Hne]. }
    destruct (rjoin (x :: xs)) as [|b bs]; [congruence|].
    destruct rooted; cbn [andb orb negb app length Nat.eqb].
    + rewrite length_app. simpl. rewrite Nat.add_comm. reflexivity.
    + rewrite app_nil_r. reflexivity.
Qed.

Lemma step_real (rooted : bool) (reals : list (list ascii)) (n : nat)
    (e : list ascii) :
  real_elem e -> step rooted (reals, n) e = (e :: reals, n).
Proof.
  intros (Hne & _ & Hd & Hdd). unfold step.
  destruct e as [|c e]; [congruence|].
  apply string_eqb_neq in Hd. apply string_eqb_neq in Hdd.
  rewrite Hd, Hdd. reflexivity.
Qed.

(** The loop invariant: the buffer stands for the stack, and [dotdot] is
    the length of the buffer of its leading [..] elements. *)
Lemma clean_loop_run_elems (rooted : bool) (fuel : nat) :
  forall (p : list ascii) (reals : list (list ascii)) (n : nat),
    length p <= fuel ->
    wf_stack rooted (reals, n) ->
    wf_stack rooted (run_elems rooted p (reals, n)) /\
    path.clean_loop fuel rooted p (rout rooted (reals, n))
      (length (rout rooted ([], n)))
    = rout rooted (run_elems rooted p (reals, n)).
Proof.
  induction fuel as [|fuel IH]; intros p reals n Hlen Hwf.
  - destruct p; [|simpl in Hlen; lia]. rewrite run_elems_nil. auto.
  - destruct p as [|c rest]; [rewrite run_elems_nil; auto|].
    simpl in Hlen.
    destruct (is_slash c) eqn:Hc.
    + rewrite run_elems_slash by exact Hc. cbn [path.clean_loop].
      rewrite Hc. apply IH; [lia | exact Hwf].
    + rewrite clean_loop_elem by exact Hc. cbn zeta.
      rewrite run_elems_elem.
      assert (length (drop_elem (c :: rest)) <= fuel) as Hlen'.
      { cbn [drop_elem]. rewrite Hc.
        pose proof (drop_elem_length rest). lia. }
      assert (take_elem (c :: rest) <> []) as Hne.
      { cbn [take_elem]. rewrite Hc. discriminate. }
      pose proof (take_elem_no_slash (c :: rest)) as Hns.
      set (e := take_elem (c :: rest)) in *.
      set (p' := drop_elem (c :: rest)) in *.
      destruct (string_eqb e [dot]) eqn:E1.
      { (* . element *)
        apply string_eqb_eq in E1.
        replace (step rooted (reals, n) e) with (reals, n).
        - apply IH; assumption.
        - rewrite E1. reflexivity. }
      destruct (string_eqb e dotdot_elem) eqn:E2.
      { (* .. element *)
        apply string_eqb_eq in E2.
        destruct Hwf as [Hr Hn]. cbn [fst snd] in Hr, Hn.
        destruct reals as [|top reals'].
        - rewrite Nat.ltb_irrefl.
          destruct rooted; cbn [negb].
          + replace (step true ([], n) e) with (@nil (list ascii), n)
              by (rewrite E2; reflexivity).
            apply IH; [assumption | split; assumption].
          + replace (step false ([], n) e) with (@nil (list ascii), S n)
              by (rewrite E2; reflexivity).
            rewrite <- rout_dotdot.
            apply IH; [assumption | split; [constructor | discriminate]].
        - inversion Hr as [|? ? Htop Hr']; subst.
          replace (step rooted (top :: reals', n) e) with (reals', n)
            by (rewrite E2; reflexivity).
          pose proof (rout_base_lt rooted top reals' n
                        (real_elem_nonempty _ Htop)) as Hlt.
          apply Nat.ltb_lt in Hlt. rewrite Hlt.
          rewrite unwind_rout
            by (auto using real_elem_nonempty, real_elem_no_slash).
          apply IH; [assumption | split; assumption]. }
      (* real path element *)
      assert (real_elem e) as Hreal.
      { apply string_eqb_neq in E1. apply string_eqb_neq in E2.
        repeat split; assumption. }
      rewrite step_real by exact Hreal.
      rewrite need_slash by exact Hwf.
      rewrite <- rout_push.
      apply IH; [assumption|].
      destruct Hwf as [Hr Hn]. split; [constructor; assumption | exact Hn].
Qed.

Lemma join_snoc (es : list (list ascii)) (e : list ascii) :
  es <> [] -> join (es ++ [e]) = join es ++ slash :: e.
Proof.
  induction es as [|x es IH]; [congruence|]. intros _.
  destruct es as [|y es].
  - reflexivity.
  - cbn [app join] in *. rewrite IH by discriminate.
    rewrite <- app_assoc. reflexivity.
Qed.

Lemma rjoin_cons2 (e y : list ascii) (es : list (list ascii)) :
  rjoin (e :: y :: es) = rev e ++ slash :: rjoin (y :: es).
Proof. reflexivity. Qed.

Lemma rev_rjoin (es : list (list ascii)) : rev (rjoin es) = join (rev es).
Proof.
  induction es as [|e es IH]; [reflexivity|].
  destruct es as [|y es].
  - cbn [rjoin rev app join]. apply rev_involutive.
  - rewrite rjoin_cons2, rev_app_distr.
    change (rev (slash :: rjoin (y :: es)))
      with (rev (rjoin (y :: es)) ++ [slash]).
    rewrite IH, rev_involutive.
    change (rev (e :: y :: es)) with (rev (y :: es) ++ [e]).
    rewrite join_snoc.
    + rewrite <- app_assoc. reflexivity.
    + cbn [rev]. intros E. apply app_eq_nil in E. destruct E; discriminate.
Qed.

Lemma rev_rout (rooted : bool) (st : stack) :
  rev (rout rooted st)
  = (if rooted then [slash] else []) ++ join (rev (stack_elems st)).
Proof.
  unfold rout. rewrite rev_app_distr, rev_rjoin.
  destruct rooted; reflexivity.
Qed.

Lemma render_rout (rooted : bool) (st : stack) :
  render rooted st
  = match rout rooted st with [] => [dot] | _ :: _ => rev (rout rooted st) end.
Proof.
  unfold render. pose proof (rev_rout rooted st) as E.
  destruct rooted; cbn [app] in E.
  - rewrite <- E. unfold rout.
    destruct (rjoin (stack_elems st) ++ [slash]) eqn:E'; [|reflexivity].
    apply app_eq_nil in E'. destruct E'; discriminate.
  - rewrite <- E. destruct (rout false st) as [|b bs] eqn:E'; [reflexivity|].
    destruct (rev (b :: bs)) eqn:E''; [|reflexivity].
    apply (f_equal (@length ascii)) in E''. rewrite length_rev in E''.
    discriminate.
Qed.

Lemma wf_stack_init (rooted : bool) : wf_stack rooted ([], 0).
Proof. split; [constructor | reflexivity]. Qed.

(** The byte loop and the element reading agree on every path. *)
Lemma Clean_elems (p : gostring) : path.Clean p = CleanSpec.Clean p.
Proof.
  destruct p as [|c rest]; [reflexivity|].
  unfold path.Clean, CleanSpec.Clean. cbn zeta.
  rewrite render_rout.
  destruct (is_slash c) eqn:Hc.
  - rewrite run_elems_slash by exact Hc.
    destruct (clean_loop_run_elems true (length (c :: rest)) rest [] 0)
      as [_ E]; [simpl; lia | apply wf_stack_init |].
    change (rout true ([], 0)) with [slash] in E.
    change (length [slash]) with 1 in E. rewrite E. reflexivity.
  - destruct (clean_loop_run_elems false (length (c :: rest)) (c :: rest) [] 0)
      as [_ E]; [simpl; lia | apply wf_stack_init |].
    change (rout false ([], 0)) with (@nil ascii) in E.
    change (length (@nil ascii)) with 0 in E. rewrite E. reflexivity.
Qed.

Lemma run_elems_wf (rooted : bool) (p : list ascii) (st : stack) :
  wf_stack rooted st -> wf_stack rooted (run_elems rooted p st).
Proof.
  destruct st as [reals n]. intros Hwf.
  apply (clean_loop_run_elems rooted (length p) p reals n); [lia | exact Hwf].
Qed.

(** The shape of a cleaned path: the buffer of a reachable stack, or the
    single dot. *)
Lemma Clean_shape (p : gostring) :
  exists rooted st,
    wf_stack rooted st /\
    path.Clean p
    = match rout rooted st with [] => [dot] | _ :: _ => rev (rout rooted st) end.
Proof.
  rewrite Clean_elems. destruct p as [|c rest].
  - exists false, ([], 0). split; [apply wf_stack_init | reflexivity].
  - exists (is_slash c), (run_elems (is_slash c) (c :: rest) ([], 0)).
    split; [apply run_elems_wf, wf_stack_init|].
    unfold CleanSpec.Clean. apply render_rout.
Qed.

Lemma Clean_nonempty (p : gostring) : path.Clean p <> [].
Proof.
  destruct (Clean_shape p) as (rooted & st & _ & E). rewrite E.
  destruct (rout rooted st) as [|b bs] eqn:E'; [discriminate|].
  intros H. apply (f_equal (@length ascii)) in H. rewrite length_rev in H.
  discriminate.
Qed.

(** *** Splitting a joined path gives its elements back *)

Lemma split_slash_app_slash (p : list ascii) :
  split_slash (p ++ [slash]) = split_slash p ++ [[]].
Proof.
  induction p as [|c r IH]; [reflexivity|].
  cbn [app split_slash]. rewrite IH.
  destruct (is_slash c); [reflexivity|].
  pose proof (split_slash_nonempty r) as Hne.
  destruct (split_slash r); [congruence | reflexivity].
Qed.

Lemma split_slash_no_slash (e : list ascii) :
  no_slash e -> split_slash e = [e].
Proof.
  induction 1 as [|c e Hc He IH]; [reflexivity|].
  cbn [split_slash]. rewrite Hc, IH. reflexivity.
Qed.

Lemma split_slash_app (e r : list ascii) :
  no_slash e -> split_slash (e ++ slash :: r) = e :: split_slash r.
Proof.
  induction 1 as [|c e Hc He IH]; [reflexivity|].
  cbn [app split_slash]. rewrite Hc, IH. reflexivity.
Qed.

Lemma split_slash_join (es : list (list ascii)) :
  es <> [] -> Forall no_slash es -> split_slash (join es) = es.
Proof.
  induction es as [|e es IH]; [congruence|]. intros _ H.
  inversion H as [|? ? He Hes]; subst.
  destruct es as [|y es].
  - apply split_slash_no_slash; assumption.
  - cbn [join]. rewrite split_slash_app by assumption.
    f_equal. apply IH; [discriminate | assumption].
Qed.

(** *** A cleaned path is a fixed point of [Clean] *)

Lemma dotdot_no_slash : no_slash dotdot_elem.
Proof. repeat constructor. Qed.

Lemma stack_elems_no_slash (rooted : bool) (st : stack) :
  wf_stack rooted st -> Forall no_slash (stack_elems st).
Proof.
  intros [Hr _]. unfold stack_elems. apply Forall_app. split.
  - eapply Forall_impl; [|exact Hr]. intros e He. apply He.
  - apply Forall_forall. intros x Hx. apply repeat_spec in Hx. subst.
    apply dotdot_no_slash.
Qed.

Lemma fold_step_dotdots (k m : nat) :
  fold_left (step false) (repeat dotdot_elem k) ([], m) = ([], k + m).
Proof.
  revert m; induction k as [|k IH]; intros m; [reflexivity|].
  cbn [repeat fold_left]. change (step false ([], m) dotdot_elem) with (@nil (list ascii), S m).
  rewrite IH. f_equal. lia.
Qed.

Lemma fold_step_reals (rooted : bool) (l acc : list (list ascii)) (n : nat) :
  Forall real_elem l ->
  fold_left (step rooted) l (acc, n) = (rev l ++ acc, n).
Proof.
  intros H. revert acc. induction H as [|e l He Hl IH]; intros acc.
  - reflexivity.
  - cbn [fold_left]. rewrite step_real by exact He. rewrite IH.
    cbn [rev]. rewrite <- app_assoc. reflexivity.
Qed.

Lemma rev_repeat (A : Type) (x : A) (n : nat) : rev (repeat x n) = repeat x n.
Proof.
  induction n as [|n IH]; [reflexivity|].
  cbn [repeat rev]. rewrite IH. symmetry. apply repeat_cons.
Qed.

Lemma fold_step_stack_elems (rooted : bool) (st : stack) :
  wf_stack rooted st ->
  fold_left (step rooted) (rev (stack_elems st)) ([], 0) = st.
Proof.
  destruct st as [reals n]. intros [Hr Hn]. cbn [fst snd] in Hr, Hn.
  unfold stack_elems. cbn [fst snd].
  rewrite rev_app_distr, rev_repeat, fold_left_app.
  assert (fold_left (step rooted) (repeat dotdot_elem n) ([], 0) = ([], n))
    as ->.
  { destruct rooted.
    - rewrite Hn by reflexivity. reflexivity.
    - rewrite fold_step_dotdots. f_equal. lia. }
  rewrite fold_step_reals by (apply Forall_rev; exact Hr).
  rewrite rev_involutive, app_nil_r. reflexivity.
Qed.

Lemma join_head (e : list ascii) (es : list (list ascii)) :
  e <> [] -> exists c r, join (e :: es) = c :: r /\ hd_error e = Some c.
Proof.
  intros He. destruct e as [|c e]; [congruence|].
  destruct es; cbn [join]; eexists _, _; split; reflexivity.
Qed.

Lemma run_elems_join (rooted : bool) (st : stack) :
  wf_stack rooted st ->
  run_elems rooted (join (rev (stack_elems st))) ([], 0) = st.
Proof.
  intros Hwf. destruct (rev (stack_elems st)) as [|e es] eqn:E.
  - cbn [join]. rewrite run_elems_nil.
    apply (f_equal (@rev (list ascii))) in E. rewrite rev_involutive in E.
    destruct st as [reals n]. unfold stack_elems in E. cbn [fst snd rev] in E.
    apply app_eq_nil in E. destruct E as [-> E].
    destruct n; [reflexivity | discriminate].
  - unfold run_elems. rewrite split_slash_join.
    + rewrite <- E. apply fold_step_stack_elems. exact Hwf.
    + discriminate.
    + rewrite <- E. apply Forall_rev. eapply stack_elems_no_slash; eassumption.
Qed.

Lemma Clean_rout (rooted : bool) (st : stack) :
  wf_stack rooted st -> rout rooted st <> [] ->
  path.Clean (rev (rout rooted st)) = rev (rout rooted st).
Proof.
  intros Hwf Hne. rewrite Clean_elems.
  assert (render rooted st = rev (rout rooted st)) as Hr.
  { rewrite render_rout. destruct (rout rooted st); [congruence|reflexivity]. }
  rewrite <- Hr at 2. rewrite rev_rout.
  destruct rooted; cbn [app].
  - unfold CleanSpec.Clean.
    replace (is_slash slash) with true by reflexivity.
    rewrite run_elems_slash by reflexivity.
    rewrite run_elems_join by exact Hwf. reflexivity.
  - destruct (rev (stack_elems st)) as [|e es] eqn:E.
    + exfalso. apply Hne. unfold rout. rewrite app_nil_r.
      apply (f_equal (@rev (list ascii))) in E. rewrite rev_involutive in E.
      rewrite E. reflexivity.
    + assert (e <> [] /\ no_slash e) as [He Hs].
      { pose proof (stack_elems_nonempty _ _ Hwf) as H1.
        pose proof (stack_elems_no_slash _ _ Hwf) as H2.
        apply Forall_rev in H1. apply Forall_rev in H2. rewrite E in H1, H2.
        inversion H1; inversion H2; subst; auto. }
      destruct (join_head e es He) as (c & r & Ej & Ec).
      pose proof (run_elems_join false st Hwf) as Hrun.
      rewrite E in Hrun. rewrite Ej in *.
      unfold CleanSpec.Clean.
      assert (is_slash c = false) as Hc.
      { destruct e as [|c' e']; [congruence|]. cbn in Ec.
        injection Ec as ->. inversion Hs; assumption. }
      rewrite Hc, Hrun. reflexivity.
Qed.

(** [Clean] is idempotent. *)
Lemma Clean_idempotent (p : gostring) :
  path.Clean (path.Clean p) = path.Clean p.
Proof.
  destruct (Clean_shape p) as (rooted & st & Hwf & E). rewrite E.
  destruct (rout rooted st) as [|b bs] eqn:E'; [reflexivity|].
  rewrite <- E'. apply Clean_rout; [exact Hwf | congruence].
Qed.

(** A slash at the end of a non-empty path does not change its cleaned
    form. *)
Lemma Clean_app_slash (p : gostring) :
  p <> [] -> path.Clean (p ++ [slash]) = path.Clean p.
Proof.
  intros Hne. rewrite !Clean_elems. destruct p as [|c rest]; [congruence|].
  cbn [app]. unfold CleanSpec.Clean. f_equal.
  change (c :: rest ++ [slash]) with ((c :: rest) ++ [slash]).
  unfold run_elems. rewrite split_slash_app_slash, fold_left_app.
  cbn [fold_left]. apply step_nil.
Qed.

Lemma rout_head_no_slash (rooted : bool) (st : stack) (b : ascii)
    (bs : list ascii) :
  wf_stack rooted st -> stack_elems st <> [] ->
  rout rooted st = b :: bs -> is_slash b = false.
Proof.
  intros Hwf Hne E.
  pose proof (stack_elems_nonempty _ _ Hwf) as H1.
  pose proof (stack_elems_no_slash _ _ Hwf) as H2.
  unfold rout in E. destruct (stack_elems st) as [|e es]; [congruence|].
  inversion H1 as [|? ? He _]; inversion H2 as [|? ? Hs _]; subst.
  assert (exists r, rjoin (e :: es) = rev e ++ r) as [r Er].
  { destruct es; [exists []; cbn [rjoin]; rewrite app_nil_r; reflexivity|].
    eexists. apply rjoin_cons2. }
  rewrite Er in E. apply Forall_rev in Hs.
  destruct (rev e) as [|x xs] eqn:Ex.
  - apply (f_equal (@length ascii)) in Ex. rewrite length_rev in Ex.
    destruct e; [congruence | discriminate].
  - cbn [app] in E. injection E as -> _. inversion Hs; assumption.
Qed.

(** The returned path ends in a slash only if it is the root. *)
Lemma Clean_ends_slash (p : gostring) :
  strings.HasSuffix (path.Clean p) (str "/") = true -> path.Clean p = [slash].
Proof.
  destruct (Clean_shape p) as (rooted & st & Hwf & E). rewrite E.
  destruct (rout rooted st) as [|b bs] eqn:E'; [discriminate|].
  rewrite HasSuffix_slash, rev_involutive. intros Hb.
  destruct (stack_elems st) as [|e es] eqn:Ee.
  - unfold rout in E'. rewrite Ee in E'. destruct rooted; [|discriminate].
    cbn in E'. injection E' as <- <-. reflexivity.
  - rewrite (rout_head_no_slash rooted st b bs) in Hb;
      [discriminate | exact Hwf | congruence | exact E'].
Qed.

(** *** The bytes of a cleaned path *)

Section CleanBytes.

Variable Q : ascii -> Prop.
Hypothesis Q_dot : Q dot.
Hypothesis Q_slash : Q slash.

Lemma split_slash_bytes (p : list ascii) :
  Forall Q p -> Forall (Forall Q) (split_slash p).
Proof.
  induction 1 as [|c r Hc Hr IH]; [repeat constructor|].
  cbn [split_slash]. destruct (is_slash c); [constructor; auto|].
  destruct (split_slash r) as [|e l]; [repeat constructor; assumption|].
  inversion IH; subst. constructor; [constructor|]; assumption.
Qed.

Lemma step_bytes (rooted : bool) (st : stack) (e : list ascii) :
  Forall (Forall Q) (fst st) -> Forall Q e ->
  Forall (Forall Q) (fst (step rooted st e)).
Proof.
  destruct st as [reals n]. cbn [fst]. intros Hr He. unfold step.
  destruct e as [|c e]; [exact Hr|].
  destruct (string_eqb (c :: e) [dot]); [exact Hr|].
  destruct (string_eqb (c :: e) dotdot_elem).
  - destruct reals; [destruct rooted; constructor|].
    inversion Hr; assumption.
  - constructor; assumption.
Qed.

Lemma fold_step_bytes (rooted : bool) (l : list (list ascii)) (st : stack) :
  Forall (Forall Q) (fst st) -> Forall (Forall Q) l ->
  Forall (Forall Q) (fst (fold_left (step rooted) l st)).
Proof.
  intros Hst Hl. revert st Hst. induction Hl as [|e l He Hl IH]; intros st Hst.
  - exact Hst.
  - cbn [fold_left]. apply IH. apply step_bytes; assumption.
Qed.

Lemma join_bytes (es : list (list ascii)) :
  Forall (Forall Q) es -> Forall Q (join es).
Proof.
  induction 1 as [|e es He Hes IH]; [constructor|].
  destruct es; [exact He|]. cbn [join]. apply Forall_app. split; [exact He|].
  constructor; [exact Q_slash | exact IH].
Qed.

Lemma Clean_bytes (p : gostring) : Forall Q p -> Forall Q (path.Clean p).
Proof.
  intros Hp. rewrite Clean_elems. destruct p as [|c rest].
  - repeat constructor. exact Q_dot.
  - unfold CleanSpec.Clean, render.
    set (st := run_elems (is_slash c) (c :: rest) ([], 0)).
    assert (Forall Q (join (rev (stack_elems st)))) as Hj.
    { apply join_bytes, Forall_rev. unfold stack_elems.
      apply Forall_app. split.
      - apply fold_step_bytes; [constructor | apply split_slash_bytes, Hp].
      - apply Forall_forall. intros x Hx. apply repeat_spec in Hx. subst.
        repeat constructor; exact Q_dot. }
    destruct (is_slash c).
    + constructor; [exact Q_slash | exact Hj].
    + destruct (join (rev (stack_elems st))); [|exact Hj].
      repeat constructor. exact Q_dot.
Qed.

End CleanBytes.

(** *** The length of a cleaned path *)

(** What the buffer of a stack weighs when an element is put on it: its
    length and the separator, or nothing for the empty stack. *)
Lemma rjoin_push_length (e : list ascii) (es : list (list ascii)) :
  length (rjoin (e :: es))
  = length e + match es with [] => 0 | _ :: _ => S (length (rjoin es)) end.
Proof.
  destruct es as [|y es].
  - cbn [rjoin]. rewrite length_rev. lia.
  - rewrite rjoin_cons2, length_app, length_rev. reflexivity.
Qed.

Lemma step_weight (rooted : bool) (st : stack) (e : list ascii) :
  weight (step rooted st e) <= weight st + length e + 1.
Proof.
  destruct st as [reals n]. unfold step.
  destruct e as [|c e]; [lia|].
  destruct (string_eqb (c :: e) [dot]); [lia|].
  destruct (string_eqb (c :: e) dotdot_elem) eqn:Edd.
  - destruct reals as [|top reals].
    + destruct rooted; [lia|].
      apply string_eqb_eq in Edd. rewrite Edd.
      unfold weight, stack_elems. cbn [fst snd app repeat].
      rewrite rjoin_push_length.
      destruct (repeat dotdot_elem n); cbn [length dotdot_elem]; lia.
    + unfold weight, stack_elems. cbn [fst snd app].
      rewrite rjoin_push_length.
      destruct (reals ++ repeat dotdot_elem n); lia.
  - unfold weight, stack_elems. cbn [fst snd app].
    rewrite rjoin_push_length.
    destruct (reals ++ repeat dotdot_elem n); cbn [length]; lia.
Qed.

Lemma split_slash_length (p : list ascii) :
  list_sum (map (fun e => length e + 1) (split_slash p)) = length p + 1.
Proof.
  set (f := fun e : list ascii => length e + 1).
  assert (forall x l, list_sum (map f (x :: l)) = f x + list_sum (map f l))
    as Hcons by reflexivity.
  induction p as [|c r IH]; [reflexivity|].
  change (split_slash (c :: r))
    with (if is_slash c then [] :: split_slash r
          else match split_slash r with
               | e :: l => (c :: e) :: l
               | [] => [[c]]
               end).
  destruct (is_slash c).
  - rewrite Hcons, IH. unfold f. cbn [length]. lia.
  - pose proof (split_slash_nonempty r) as Hne.
    destruct (split_slash r) as [|e l]; [congruence|].
    rewrite Hcons in *. unfold f in *. cbn [length] in *. lia.
Qed.

Lemma fold_step_weight (rooted : bool) (l : list (list ascii)) (st : stack) :
  weight (fold_left (step rooted) l st)
  <= weight st + list_sum (map (fun e => length e + 1) l).
Proof.
  set (f := fun e : list ascii => length e + 1).
  revert st. induction l as [|e l IH]; intros st.
  - cbn [fold_left map list_sum]. lia.
  - change (fold_left (step rooted) (e :: l) st)
      with (fold_left (step rooted) l (step rooted st e)).
    change (list_sum (map f (e :: l))) with (f e + list_sum (map f l)).
    pose proof (IH (step rooted st e)).
    pose proof (step_weight rooted st e). unfold f at 1. lia.
Qed.

Lemma run_elems_weight (rooted : bool) (p : list ascii) :
  weight (run_elems rooted p ([], 0)) <= length p + 1.
Proof.
  unfold run_elems.
  pose proof (fold_step_weight rooted (split_slash p) ([], 0)) as H.
  rewrite split_slash_length in H. exact H.
Qed.

Lemma render_length (rooted : bool) (st : stack) :
  length (render rooted st)
  = if rooted then S (length (rjoin (stack_elems st)))
    else Nat.max 1 (length (rjoin (stack_elems st))).
Proof.
  unfold render. rewrite <- rev_rjoin.
  destruct rooted.
  - cbn [length]. rewrite length_rev. reflexivity.
  - destruct (rev (rjoin (stack_elems st))) as [|b bs] eqn:E.
    + apply (f_equal (@length ascii)) in E. rewrite length_rev in E.
      rewrite E. reflexivity.
    + rewrite <- E, length_rev.
      apply (f_equal (@length ascii)) in E. rewrite length_rev in E.
      cbn [length] in E. lia.
Qed.

(** [Clean] never makes a path longer, the empty path apart. *)
Lemma Clean_length (p : gostring) :
  length (path.Clean p) <= Nat.max 1 (length p).
Proof.
  rewrite Clean_elems. destruct p as [|c rest]; [cbn; lia|].
  unfold CleanSpec.Clean. rewrite render_length.
  destruct (is_slash c) eqn:Hc.
  - rewrite run_elems_slash by exact Hc.
    pose proof (run_elems_weight true rest) as H. unfold weight in H.
    cbn [length].
    destruct (stack_elems (run_elems true rest ([], 0)));
      [cbn [rjoin length]|]; lia.
  - pose proof (run_elems_weight false (c :: rest)) as H. unfold weight in H.
    cbn [length] in *.
    destruct (stack_elems (run_elems false (c :: rest) ([], 0)));
      [cbn [rjoin length]|]; lia.
Qed.
End CleanProofs.

(** ** White space *)

Lemma space2_bytes (b0 b1 : ascii) :
  strings.space2 b0 b1 = true -> space_byte b0 /\ space_byte b1.
Proof.
  unfold strings.space2, strings.byte_is, space_byte. intros H.
  apply andb_true_iff in H. destruct H as [H0 H1].
  apply orb_true_iff in H1. apply Nat.eqb_eq in H0.
  rewrite !Nat.eqb_eq in H1. lia.
Qed.

Lemma space3_bytes (b0 b1 b2 : ascii) :
  strings.space3 b0 b1 b2 = true ->
  space_byte b0 /\ space_byte b1 /\ space_byte b2.
Proof.
  unfold strings.space3, strings.byte_is, space_byte. intros H.
  repeat (rewrite ?orb_true_iff, ?andb_true_iff, ?Nat.eqb_eq, ?Nat.leb_le in H).
  lia.
Qed.

Lemma TrimLeftSpace_bytes (n : nat) :
  forall s, length s <= n ->
    Forall space_byte (strings.TrimLeftSpace s) -> Forall space_byte s.
Proof.
  induction n as [|n IH]; intros s Hlen H.
  - destruct s; [constructor | simpl in Hlen; lia].
  - destruct s as [|b0 s1]; [constructor|]. simpl in Hlen.
    cbn [strings.TrimLeftSpace] in H.
    destruct (strings.asciiSpace b0) eqn:E0.
    { constructor; [left; exact E0 | apply IH; [lia | exact H]]. }
    destruct s1 as [|b1 s2]; [exact H|]. simpl in Hlen.
    destruct (strings.space2 b0 b1) eqn:E1.
    { apply space2_bytes in E1. destruct E1.
      do 2 (apply Forall_cons; [assumption|]). apply IH; [lia | exact H]. }
    destruct s2 as [|b2 s3]; [exact H|]. simpl in Hlen.
    destruct (strings.space3 b0 b1 b2) eqn:E2; [|exact H].
    apply space3_bytes in E2. destruct E2 as (? & ? & ?).
    do 3 (apply Forall_cons; [assumption|]). apply IH; [lia | exact H].
Qed.

Lemma TrimRightSpace_rev_bytes (n : nat) :
  forall r, length r <= n ->
    strings.TrimRightSpace_rev r = [] -> Forall space_byte r.
Proof.
  induction n as [|n IH]; intros r Hlen H.
  - destruct r; [constructor | simpl in Hlen; lia].
  - destruct r as [|b0 r1]; [constructor|]. simpl in Hlen.
    cbn [strings.TrimRightSpace_rev] in H.
    destruct (strings.asciiSpace b0) eqn:E0.
    { constructor; [left; exact E0 | apply IH; [lia | exact H]]. }
    destruct r1 as [|b1 r2]; [discriminate|]. simpl in Hlen.
    destruct (strings.space2 b1 b0) eqn:E1.
    { apply space2_bytes in E1. destruct E1.
      do 2 (apply Forall_cons; [assumption|]). apply IH; [lia | exact H]. }
    destruct r2 as [|b2 r3]; [discriminate|]. simpl in Hlen.
    destruct (strings.space3 b2 b1 b0) eqn:E2; [|discriminate].
    apply space3_bytes in E2. destruct E2 as (? & ? & ?).
    do 3 (apply Forall_cons; [assumption|]). apply IH; [lia | exact H].
Qed.

(** A string that trims to nothing is made of white-space bytes only. *)
Lemma TrimSpace_empty_bytes (s : gostring) :
  strings.TrimSpace s = [] -> Forall space_byte s.
Proof.
  unfold strings.TrimSpace, strings.TrimRightSpace. intros H.
  apply (f_equal (@rev ascii)) in H. rewrite rev_involutive in H.
  cbn [rev] in H.
  apply (TrimRightSpace_rev_bytes _ _ (Nat.le_refl _)) in H.
  apply Forall_rev in H. rewrite rev_involutive in H.
  apply (TrimLeftSpace_bytes _ _ (Nat.le_refl _)). exact H.
Qed.

Lemma space_byte_not_slash (c : ascii) : space_byte c -> is_slash c = false.
Proof.
  intros H. destruct (is_slash c) eqn:E; [|reflexivity].
  apply is_slash_true in E. subst c. exfalso.
  destruct H as [H | H]; [discriminate | cbn in H; lia].
Qed.

Lemma space_byte_not_backslash (c : ascii) : space_byte c -> c <> backslash.
Proof.
  intros H E. subst c.
  destruct H as [H | H]; [discriminate | cbn in H; lia].
Qed.

Lemma space_byte_not_alpha (c : ascii) : space_byte c -> is_alpha c = false.
Proof.
  unfold space_byte, strings.asciiSpace, is_alpha. cbn zeta. intros H.
  rewrite orb_true_iff, andb_true_iff, !Nat.leb_le, Nat.eqb_eq in H.
  apply orb_false_iff. rewrite !andb_false_iff, !Nat.leb_gt. lia.
Qed.

(** A string with a slash in it does not trim to nothing. *)
Lemma TrimSpace_with_slash (s : gostring) :
  In slash s -> string_eqb (strings.TrimSpace s) [] = false.
Proof.
  intros Hin. apply string_eqb_neq. intros E.
  apply TrimSpace_empty_bytes in E.
  rewrite Forall_forall in E. apply E in Hin.
  apply space_byte_not_slash in Hin. discriminate.
Qed.

(** ** The path normalizer *)

Lemma ReplaceAll_no_backslash (s : gostring) :
  Forall (fun c => c <> backslash) (strings.ReplaceAll s backslash slash).
Proof.
  unfold strings.ReplaceAll. induction s as [|c s IH]; [constructor|].
  cbn [map]. constructor; [|exact IH].
  destruct (Ascii.eqb c backslash) eqn:E; [discriminate|].
  apply Ascii.eqb_neq. exact E.
Qed.

Lemma ReplaceAll_id (s : gostring) (old new : ascii) :
  Forall (fun c => c <> old) s -> strings.ReplaceAll s old new = s.
Proof.
  unfold strings.ReplaceAll. induction 1 as [|c s Hc Hs IH]; [reflexivity|].
  cbn [map]. rewrite IH. apply Ascii.eqb_neq in Hc. rewrite Hc. reflexivity.
Qed.

Lemma ReplaceAll_app (a b : gostring) (old new : ascii) :
  strings.ReplaceAll (a ++ b) old new
  = strings.ReplaceAll a old new ++ strings.ReplaceAll b old new.
Proof. apply map_app. Qed.

Lemma sanitize_blank (p : gostring) :
  string_eqb (strings.TrimSpace p) [] = true -> sanitize p = p.
Proof. unfold sanitize. intros ->. reflexivity. Qed.

Lemma sanitize_clean (p : gostring) :
  string_eqb (strings.TrimSpace p) [] = false ->
  sanitize p
  = if strings.HasSuffix (converted p) (str "/")
    then path.Clean (converted p) ++ str "/"
    else path.Clean (converted p).
Proof. unfold sanitize. intros ->. reflexivity. Qed.

Lemma HasSuffix_app_slash (s : gostring) :
  strings.HasSuffix (s ++ str "/") (str "/") = true.
Proof.
  rewrite HasSuffix_slash. cbn [str String.list_ascii_of_string].
  rewrite rev_app_distr. reflexivity.
Qed.

(** The bytes of a normalized path: no backslash is left. *)
Lemma sanitize_no_backslash (p : gostring) :
  Forall (fun c => c <> backslash) (sanitize p).
Proof.
  destruct (string_eqb (strings.TrimSpace p) []) eqn:E.
  - rewrite sanitize_blank by exact E. apply string_eqb_eq in E.
    apply TrimSpace_empty_bytes in E.
    eapply Forall_impl; [|exact E]. apply space_byte_not_backslash.
  - rewrite sanitize_clean by exact E.
    assert (Forall (fun c => c <> backslash) (path.Clean (converted p))) as H.
    { apply CleanProofs.Clean_bytes; try discriminate.
      apply ReplaceAll_no_backslash. }
    destruct (strings.HasSuffix (converted p) (str "/")); [|exact H].
    apply Forall_app. split; [exact H|]. repeat constructor. discriminate.
Qed.

(** Normalizing a path that came out of [path.Clean], with or without a
    slash put after it, changes nothing unless a volume prefix is found. *)
Lemma sanitize_cleaned (q : gostring) (t : bool) :
  Forall (fun c => c <> backslash) q ->
  let s := if t then path.Clean q ++ str "/" else path.Clean q in
  (t = false -> path.Clean q <> [slash]) ->
  volumePrefixRegex_MatchString s = false ->
  sanitize s = s.
Proof.
  intros Hq s Hroot Hvol.
  destruct (string_eqb (strings.TrimSpace s) []) eqn:E;
    [apply sanitize_blank; exact E|].
  rewrite sanitize_clean by exact E.
  assert (Forall (fun c => c <> backslash) (path.Clean q)) as Hc.
  { apply CleanProofs.Clean_bytes; try discriminate. exact Hq. }
  assert (converted s = s) as ->.
  { unfold converted, volumePrefixRegex_strip. rewrite Hvol.
    apply ReplaceAll_id. subst s. destruct t; [|exact Hc].
    apply Forall_app. split; [exact Hc|]. repeat constructor. discriminate. }
  subst s. destruct t.
  - rewrite HasSuffix_app_slash.
    change (str "/") with [slash].
    rewrite CleanProofs.Clean_app_slash by apply CleanProofs.Clean_nonempty.
    rewrite CleanProofs.Clean_idempotent. reflexivity.
  - destruct (strings.HasSuffix (path.Clean q) (str "/")) eqn:Hs.
    + apply CleanProofs.Clean_ends_slash in Hs. exfalso.
      apply Hroot; [reflexivity | exact Hs].
    + apply CleanProofs.Clean_idempotent.
Qed.

(** Stripping the volume prefix does not change how the path ends. *)
Lemma HasSuffix_converted (p : gostring) :
  strings.HasSuffix (converted p) (str "/")
  = strings.HasSuffix (strings.ReplaceAll p backslash slash) (str "/").
Proof.
  unfold converted, volumePrefixRegex_strip.
  destruct (volumePrefixRegex_MatchString p) eqn:E; [|reflexivity].
  destruct p as [|a [|b rest]]; try discriminate.
  cbn in E. apply andb_true_iff in E. destruct E as [_ E].
  apply Ascii.eqb_eq in E. subst b.
  cbn [skipn]. rewrite !HasSuffix_slash.
  unfold strings.ReplaceAll. cbn [map rev].
  destruct (rev (map (fun c => if Ascii.eqb c backslash then slash else c) rest));
    reflexivity.
Qed.

Lemma trailing_slashes_app_slash (c : gostring) :
  strings.HasSuffix c (str "/") = false ->
  trailing_slashes (c ++ str "/") = 1.
Proof.
  rewrite HasSuffix_slash. unfold trailing_slashes.
  cbn [str String.list_ascii_of_string]. rewrite rev_app_distr.
  cbn [rev app leading_slashes].
  replace (is_slash "/"%char) with true by reflexivity.
  destruct (rev c) as [|x r]; [reflexivity|].
  cbn [leading_slashes]. intros ->. reflexivity.
Qed.

Lemma Clean_root_or_open (q : gostring) :
  path.Clean q = [slash]
  \/ strings.HasSuffix (path.Clean q) (str "/") = false.
Proof.
  destruct (strings.HasSuffix (path.Clean q) (str "/")) eqn:E; [|auto].
  left. apply CleanProofs.Clean_ends_slash. exact E.
Qed.

(** ** Claims on the path normalizer *)

(** C3, as stated, fails: the path ["a:b:c"] normalizes to ["b:c"], and
    ["b:c"] normalizes to ["c"], because one volume prefix is stripped
    each time. *)
Lemma sanitize_not_idempotent_volume :
  sanitize (str "a:b:c") = str "b:c"
  /\ sanitize (sanitize (str "a:b:c")) = str "c"
  /\ sanitize (sanitize (str "a:b:c")) <> sanitize (str "a:b:c").
Proof. vm_compute. repeat split. discriminate. Qed.

(** The root is the other path that is not a fixed point: ["/."]
    normalizes to ["/"], and ["/"] to ["//"]. *)
Lemma sanitize_not_idempotent_root :
  sanitize (str "/.") = str "/"
  /\ sanitize (sanitize (str "/.")) = str "//".
Proof. vm_compute. split; reflexivity. Qed.

(** A normalized path is fixed by [sanitize] unless it is the root or
    starts with a volume prefix. *)
Lemma sanitize_fixed (p : gostring) :
  sanitize p <> str "/" ->
  volumePrefixRegex_MatchString (sanitize p) = false ->
  sanitize (sanitize p) = sanitize p.
Proof.
  intros Hroot Hvol.
  destruct (string_eqb (strings.TrimSpace p) []) eqn:E.
  - rewrite (sanitize_blank p E). apply sanitize_blank. exact E.
  - rewrite (sanitize_clean p E) in *.
    apply (sanitize_cleaned (converted p)
             (strings.HasSuffix (converted p) (str "/"))).
    + apply ReplaceAll_no_backslash.
    + intros Ht. rewrite Ht in Hroot. exact Hroot.
    + exact Hvol.
Qed.

(** A path that starts with a volume prefix gets shorter when it is
    normalized, so it is no fixed point. *)
Lemma sanitize_volume_shorter (s : gostring) :
  volumePrefixRegex_MatchString s = true -> length (sanitize s) < length s.
Proof.
  intros Hm. destruct s as [|a [|b rest]]; try discriminate.
  assert (string_eqb (strings.TrimSpace (a :: b :: rest)) [] = false) as E.
  { apply string_eqb_neq. intros E. apply TrimSpace_empty_bytes in E.
    inversion E as [|? ? Ha _]; subst. apply space_byte_not_alpha in Ha.
    cbn in Hm. rewrite Ha in Hm. discriminate. }
  rewrite (sanitize_clean _ E).
  assert (converted (a :: b :: rest) = strings.ReplaceAll rest backslash slash)
    as ->.
  { unfold converted, volumePrefixRegex_strip. rewrite Hm. reflexivity. }
  pose proof (CleanProofs.Clean_length (strings.ReplaceAll rest backslash slash))
    as Hlen.
  assert (length (strings.ReplaceAll rest backslash slash) = length rest) as El
    by apply length_map.
  rewrite El in Hlen.
  destruct (strings.HasSuffix (strings.ReplaceAll rest backslash slash) (str "/"))
    eqn:Hs.
  - rewrite length_app. cbn [str String.list_ascii_of_string length].
    destruct rest as [|x rest']; [discriminate|]. cbn [length] in *. lia.
  - cbn [length]. lia.
Qed.

(** C3, amended: path normalization is idempotent exactly on the inputs
    whose normalized form is not the root ["/"] and does not start with a
    volume prefix (a letter and a colon): [sanitize (sanitize p)] equals
    [sanitize p] for these inputs and for no other.  The empty string,
    white-space strings, Windows-style paths with one volume prefix, paths
    with [..] elements and backslash-separated paths are such inputs. *)
Theorem sanitize_idempotent (p : gostring) :
  sanitize (sanitize p) = sanitize p
  <-> sanitize p <> str "/"
      /\ volumePrefixRegex_MatchString (sanitize p) = false.
Proof.
  split.
  - intros E. split.
    + intros Hroot. rewrite Hroot in E. vm_compute in E. discriminate.
    + destruct (volumePrefixRegex_MatchString (sanitize p)) eqn:Hm;
        [|reflexivity].
      apply sanitize_volume_shorter in Hm. rewrite E in Hm. lia.
  - intros [Hroot Hvol]. apply sanitize_fixed; assumption.
Qed.

Lemma sanitize_idempotent_witness :
  sanitize (str "C:\a\b") <> str "/"
  /\ volumePrefixRegex_MatchString (sanitize (str "C:\a\b")) = false
  /\ sanitize (sanitize (str "C:\a\b")) = sanitize (str "C:\a\b").
Proof.
  split; [vm_compute; discriminate|].
  split; [reflexivity|].
  apply (proj2 (sanitize_idempotent (str "C:\a\b"))).
  split; [vm_compute; discriminate | reflexivity].
Defined.

(** The inputs the specification lists are fixed after one pass. *)
Lemma sanitize_listed_inputs_fixed :
  Forall (fun p => sanitize (sanitize p) = sanitize p)
    [ []; str "   "; str "C:\a\b"; str "/a/../b/";
      str "a\b" ++ [backslash]; str "a\\b\\" ].
Proof.
  repeat constructor;
    (apply sanitize_fixed; [vm_compute; discriminate | reflexivity]).
Qed.

(** C8, as stated, fails at the root: ["/"] is not empty, not white space
    and ends in a separator, and its normalized form ["//"] ends in two
    separators. *)
Lemma sanitize_root_two_separators :
  string_eqb (strings.TrimSpace (str "/")) [] = false
  /\ strings.HasSuffix (strings.ReplaceAll (str "/") backslash slash) (str "/")
     = true
  /\ trailing_slashes (sanitize (str "/")) = 2
  /\ trailing_slashes (sanitize (str "/")) <> 1.
Proof. vm_compute. repeat split. discriminate. Qed.

(** In the other direction, ["/."] does not end in a separator and its
    normalized form ["/"] does. *)
Lemma sanitize_root_gains_separator :
  string_eqb (strings.TrimSpace (str "/.")) [] = false
  /\ strings.HasSuffix (strings.ReplaceAll (str "/.") backslash slash) (str "/")
     = false
  /\ strings.HasSuffix (sanitize (str "/.")) (str "/") = true.
Proof. vm_compute. repeat split. Qed.

(** C8, amended: for every non-empty, non-white-space input that does not
    normalize to the root (["/"] or ["//"]): when its backslash-converted
    form ends in a separator, the normalized output ends in exactly one
    trailing separator; when it does not, the normalized output does not
    end in a separator. *)
Theorem sanitize_trailing_separator (p : gostring) :
  string_eqb (strings.TrimSpace p) [] = false ->
  sanitize p <> str "/" ->
  sanitize p <> str "//" ->
  (strings.HasSuffix (strings.ReplaceAll p backslash slash) (str "/") = true ->
   trailing_slashes (sanitize p) = 1)
  /\ (strings.HasSuffix (strings.ReplaceAll p backslash slash) (str "/") = false ->
      strings.HasSuffix (sanitize p) (str "/") = false).
Proof.
  intros E H1 H2. rewrite <- HasSuffix_converted.
  rewrite (sanitize_clean p E) in *.
  destruct (strings.HasSuffix (converted p) (str "/")) eqn:Ht.
  - split; [intros _ | discriminate].
    destruct (Clean_root_or_open (converted p)) as [Hr | Ho].
    + rewrite Hr in H2. exfalso. apply H2. reflexivity.
    + apply trailing_slashes_app_slash. exact Ho.
  - split; [discriminate | intros _].
    destruct (Clean_root_or_open (converted p)) as [Hr | Ho].
    + rewrite Hr in H1. exfalso. apply H1. reflexivity.
    + exact Ho.
Qed.

Lemma sanitize_trailing_separator_witness :
  (strings.HasSuffix
     (strings.ReplaceAll (str "dir" ++ [backslash]) backslash slash) (str "/")
   = true
   /\ sanitize (str "dir" ++ [backslash]) = str "dir/"
   /\ trailing_slashes (sanitize (str "dir" ++ [backslash])) = 1)
  /\ (strings.HasSuffix (strings.ReplaceAll (str "dir") backslash slash) (str "/")
      = false
      /\ strings.HasSuffix (sanitize (str "dir")) (str "/") = false).
Proof.
  split.
  - split; [reflexivity|]. split; [reflexivity|].
    apply (sanitize_trailing_separator (str "dir" ++ [backslash]));
      [reflexivity | vm_compute; discriminate | vm_compute; discriminate
      | reflexivity].
  - split; [reflexivity|].
    apply (sanitize_trailing_separator (str "dir"));
      [reflexivity | vm_compute; discriminate | vm_compute; discriminate
      | reflexivity].
Defined.

(** The inputs left out are those where the statement fails: an output
    ["/"] comes from an input without a separator at its end, and an
    output ["//"] from an input with one. *)
Lemma sanitize_root_cases (p : gostring) :
  string_eqb (strings.TrimSpace p) [] = false ->
  (sanitize p = str "/" ->
   strings.HasSuffix (strings.ReplaceAll p backslash slash) (str "/") = false)
  /\ (sanitize p = str "//" ->
      strings.HasSuffix (strings.ReplaceAll p backslash slash) (str "/") = true).
Proof.
  intros E. rewrite <- HasSuffix_converted, (sanitize_clean p E).
  destruct (strings.HasSuffix (converted p) (str "/")) eqn:Ht; split;
    try reflexivity; intros H; exfalso.
  - apply (CleanProofs.Clean_nonempty (converted p)).
    destruct (path.Clean (converted p)) as [|c [|c' r]];
      [reflexivity | discriminate | discriminate].
  - destruct (Clean_root_or_open (converted p)) as [Hr | Ho].
    + rewrite Hr in H. discriminate.
    + rewrite H in Ho. discriminate.
Qed.

(** ** Running a method *)

Lemma run_bind {A B S : Type} (h : handler S) (p : Prog A) (f : A -> Prog B)
    (s : S) :
  run h (bind p f) s
  = let '(a, s1, tr1) := run h p s in
    let '(b, s2, tr2) := run h (f a) s1 in
    (b, s2, tr1 ++ tr2).
Proof.
  revert s. induction p as [a | r k IH]; intros s.
  - cbn [bind run]. destruct (run h (f a) s) as [[b s2] tr2]. reflexivity.
  - cbn [bind run]. destruct (h r s) as [x s1]. rewrite IH.
    destruct (run h (k x) s1) as [[a s2] tr1].
    destruct (run h (f a) s2) as [[b s3] tr2]. reflexivity.
Qed.

Lemma run_call {S : Type} (h : handler S) (r : Request) (s : S) :
  run h (call r) s = (fst (h r s), snd (h r s), [mkEvent r (fst (h r s))]).
Proof. cbn [call run]. destruct (h r s). reflexivity. Qed.

(** ** Rename *)

(** [Rename] never looks at its first argument. *)
Lemma Rename_ignores_oldname (fs : Fs) (old old' new : gostring) :
  Rename fs old new = Rename fs old' new.
Proof. reflexivity. Qed.

(** It is a no-op, whatever the old name, as soon as normalizing the new
    name twice gives the same as normalizing it once. *)
Lemma Rename_noop (fs : Fs) (old new : gostring) :
  Fs_sanitize fs (Fs_sanitize fs new) = Fs_sanitize fs new ->
  Rename fs old new = Ret None.
Proof.
  intros E. unfold Rename. rewrite E, string_eqb_refl. reflexivity.
Qed.

(** C1, on the code: [Rename] from ["a.txt"] to ["b.txt"], two names with
    different normalized forms, returns nil at once; no copy and no delete
    is issued, in raw mode or not.  The source overwrites [oldname] with
    the normalized [newname] before it reads it. *)
Theorem Rename_distinct_names_no_copy (fs : Fs) :
  Fs_sanitize fs (str "a.txt") <> Fs_sanitize fs (str "b.txt")
  /\ Rename fs (str "a.txt") (str "b.txt") = Ret None
  /\ forall (S : Type) (h : handler S) (s : S),
       run h (Rename fs (str "a.txt") (str "b.txt")) s = (None, s, []).
Proof.
  assert (Rename fs (str "a.txt") (str "b.txt") = Ret None) as E.
  { apply Rename_noop. unfold Fs_sanitize. destruct (RawMode fs); reflexivity. }
  split; [|split].
  - unfold Fs_sanitize. destruct (RawMode fs); vm_compute; discriminate.
  - exact E.
  - intros S h s. rewrite E. reflexivity.
Qed.

(** C2, on the code: [Rename] from ["a:b:c"] to the same ["a:b:c"] is no
    no-op.  The two names the source compares are the normalized new name,
    ["b:c"], and that name normalized again, ["c"]; they differ, so the
    object is copied from ["b:c"] to ["c"] and ["b:c"] is deleted. *)
Theorem Rename_same_name_copies (bucket : gostring) :
  let fs := fs_plain bucket in
  first_request (Rename fs (str "a:b:c") (str "a:b:c"))
  = Some (CopyObject {| copy_Bucket := bucket;
                        copy_CopySource := bucket ++ str "b:c";
                        copy_Key := str "c" |})
  /\ run (canned (inr not_found_404) (inr not_found_404) [])
         (Rename fs (str "a:b:c") (str "a:b:c")) tt
     = (None, tt,
        [ mkEvent (CopyObject {| copy_Bucket := bucket;
                                 copy_CopySource := bucket ++ str "b:c";
                                 copy_Key := str "c" |}) None;
          mkEvent (DeleteObject {| del_Bucket := bucket;
                                   del_Key := str "b:c" |}) None ]).
Proof. split; reflexivity. Qed.

(** ** Create *)

Section CreateFacts.

Variable mime_TypeByExtension : gostring -> gostring.

Lemma Create_first_request (fs : Fs) (name : gostring) :
  first_request (Create mime_TypeByExtension fs name)
  = Some (PutObject (Create_request mime_TypeByExtension fs name)).
Proof. reflexivity. Qed.

(** The key of the put request is the name as given. *)
Lemma Create_request_key (fs : Fs) (name : gostring) :
  put_Key (Create_request mime_TypeByExtension fs name) = name
  /\ put_Bucket (Create_request mime_TypeByExtension fs name) = Bucket fs
  /\ put_Body (Create_request mime_TypeByExtension fs name) = [].
Proof.
  unfold Create_request. destruct (FileProps fs) as [p|]; cbn.
  - destruct (ContentType p); cbn; auto.
  - auto.
Qed.

(** The default property set is applied when there is one, and the
    content type is guessed from the extension when none is given. *)
Lemma Create_request_props (fs : Fs) (name : gostring) :
  let req := Create_request mime_TypeByExtension fs name in
  match FileProps fs with
  | Some p =>
      put_ACL req = ACL p /\ put_CacheControl req = CacheControl p
      /\ put_ContentEncoding req = ContentEncoding p
      /\ put_ContentType req
         = match ContentType p with
           | Some v => Some v
           | None => Some (mime_TypeByExtension (filepath.Ext name))
           end
  | None =>
      put_ACL req = None /\ put_CacheControl req = None
      /\ put_ContentEncoding req = None
      /\ put_ContentType req = Some (mime_TypeByExtension (filepath.Ext name))
  end.
Proof.
  unfold Create_request. destruct (FileProps fs) as [p|]; cbn.
  - destruct p as [a c t e]; cbn.
    destruct a, c, t, e; cbn; auto.
  - auto.
Qed.

(** C4, on the code: [Create] of ["./a.txt"] on a handle that normalizes
    paths puts its empty object at the key ["./a.txt"] and waits for the
    key ["./a.txt"], where the normalized path is ["a.txt"]; the write
    stream it opens in between is on ["a.txt"].  [Create] is the one
    method that does not call [fs.sanitize] on its argument. *)
Theorem Create_key_not_normalized (bucket : gostring) :
  let fs := fs_plain bucket in
  let name := str "./a.txt" in
  Fs_sanitize fs name = str "a.txt"
  /\ requests (snd (run (canned (inr not_found_404) (inr not_found_404) [])
                      (Create mime_TypeByExtension fs name) tt))
     = [ PutObject {| put_Bucket := bucket;
                      put_Key := str "./a.txt";
                      put_Body := [];
                      put_ACL := None;
                      put_CacheControl := None;
                      put_ContentType :=
                        Some (mime_TypeByExtension (str ".txt"));
                      put_ContentEncoding := None |};
         openWriteStream (NewFile fs (str "a.txt"));
         WaitUntilObjectExists {| head_Bucket := bucket;
                                  head_Key := str "./a.txt" |} ].
Proof. split; reflexivity. Qed.

End CreateFacts.

(** ** Stat *)

Lemma head_event_inj (rq : HeadObjectInput) (x y : HeadObjectOutput + awserr)
    (tr tr' : list Event) :
  mkEvent (HeadObject rq) x :: tr = mkEvent (HeadObject rq) y :: tr' ->
  x = y /\ tr = tr'.
Proof.
  intros E. split.
  - apply (f_equal (fun t => match t with
                             | ev :: _ => head_answer ev
                             | [] => None
                             end)) in E.
    cbn in E. injection E as E. exact E.
  - apply (f_equal (@tl Event)) in E. exact E.
Qed.

Lemma listing_event_inj (rq : ListObjectsV2Input)
    (x y : ListObjectsV2Output + awserr) (tr tr' : list Event) :
  mkEvent (ListObjectsV2 rq) x :: tr = mkEvent (ListObjectsV2 rq) y :: tr' ->
  x = y /\ tr = tr'.
Proof.
  intros E. split.
  - apply (f_equal (fun t => match t with
                             | ev :: _ => listing_answer ev
                             | [] => None
                             end)) in E.
    cbn in E. injection E as E. exact E.
  - apply (f_equal (@tl Event)) in E. exact E.
Qed.

(** Read the two answers off a trace made of a point lookup and a
    listing. *)
Ltac trace_answers E Hhead Hlist :=
  apply head_event_inj in E; destruct E as [Hhead E];
  apply listing_event_inj in E; destruct E as [Hlist _].

(** C5: [Stat] returns a not-found error exactly when the point lookup
    fails with status 404, the prefix listing, which asks for at most one
    key, matches zero keys, and the path is not empty; and when the lookup
    fails with 404 and the listing matches at least one key, [Stat]
    returns a directory record of size 0 with the epoch as its time. *)
Theorem Stat_not_found_iff (S : Type) (h : handler S) (s : S) (fs : Fs)
    (name : gostring) :
  let key := Fs_sanitize fs name in
  let head := HeadObject {| head_Bucket := Bucket fs; head_Key := key |} in
  let listing :=
    ListObjectsV2 {| list_Bucket := Bucket fs;
                     list_Prefix := strings.TrimPrefix (path.Clean key) (str "/");
                     list_MaxKeys := 1 |} in
  let '(res, _, tr) := run h (Stat fs name) s in
  (is_not_found (snd res) = true <->
   exists (e : awserr) (out : ListObjectsV2Output),
     tr = [mkEvent head (inr e); mkEvent listing (inl out)]
     /\ is_404 e = true /\ KeyCount out = 0%Z /\ key <> [])
  /\ (forall (e : awserr) (out : ListObjectsV2Output),
        tr = [mkEvent head (inr e); mkEvent listing (inl out)] ->
        is_404 e = true -> (1 <= KeyCount out)%Z ->
        res = (Some (NewFileInfo (path.Base key) true 0 (time_Unix 0 0)), None)).
Proof.
  cbn zeta. unfold Stat. cbn [bind call run].
  destruct (h _ s) as [r s1]. destruct r as [out | e].
  - (* the object is there: one call, and no error *)
    assert (forall (tr : list Event) (e : awserr) ev,
               mkEvent (HeadObject {| head_Bucket := Bucket fs;
                                      head_Key := Fs_sanitize fs name |})
                 (inl out) :: tr
               = [mkEvent (HeadObject {| head_Bucket := Bucket fs;
                                         head_Key := Fs_sanitize fs name |})
                    (inr e); ev] -> False) as Hno.
    { intros tr e ev E. apply head_event_inj in E. destruct E; discriminate. }
    destruct (strings.HasSuffix (Fs_sanitize fs name) (str "/"));
      cbn [run snd is_not_found]; (split; [split; [discriminate|] | ]);
      try (intros (e & o & E & _)); try (intros e o E);
      exfalso; eapply Hno; eauto.
  - destruct (is_404 e) eqn:E404.
    + (* not found: the directory fallback *)
      unfold statDirectory. cbn [bind call run].
      destruct (h _ s1) as [r2 s2]. destruct r2 as [out | e2].
      * destruct ((KeyCount out =? 0)%Z
                  && negb (string_eqb (Fs_sanitize fs name) [])) eqn:Ek;
          cbn [run snd is_not_found IsNotExist].
        -- apply andb_true_iff in Ek. destruct Ek as [Ek En].
           apply Z.eqb_eq in Ek. apply negb_true_iff, string_eqb_neq in En.
           split.
           ++ split; [intros _ | reflexivity].
              exists e, out. auto.
           ++ intros e' o' E _ Hk. exfalso.
              trace_answers E Hh Hl. injection Hl as <-. lia.
        -- split.
           ++ split; [discriminate|].
              intros (e' & o' & E & _ & Hk & Hn). exfalso.
              trace_answers E Hh Hl. injection Hl as <-.
              apply andb_false_iff in Ek. destruct Ek as [Ek | Ek].
              ** apply Z.eqb_neq in Ek. congruence.
              ** apply negb_false_iff, string_eqb_eq in Ek. congruence.
           ++ intros; reflexivity.
      * (* the listing failed *)
        cbn [run snd is_not_found IsNotExist]. split.
        -- split; [discriminate|]. intros (e' & o' & E & _). exfalso.
           trace_answers E Hh Hl. discriminate.
        -- intros e' o' E. exfalso. trace_answers E Hh Hl. discriminate.
    + (* another failure of the lookup: one call *)
      cbn [run snd is_not_found IsNotExist]. split.
      * split; [discriminate|]. intros (e' & o' & E & H404 & _). exfalso.
        apply head_event_inj in E. destruct E as [E _].
        injection E as <-. congruence.
      * intros e' o' E H404. exfalso.
        apply head_event_inj in E. destruct E as [E _].
        injection E as <-. congruence.
Qed.

Lemma Stat_not_found_witness :
  let h := canned (inr not_found_404) (inl {| KeyCount := 0 |}) [] in
  let fs := fs_plain (str "bucket") in
  is_not_found (snd (fst (fst (run h (Stat fs (str "missing.txt")) tt)))) = true
  /\ fst (fst (run (canned (inr not_found_404) (inl {| KeyCount := 1 |}) [])
                 (Stat fs (str "photos")) tt))
     = (Some (NewFileInfo (str "photos") true 0 (time_Unix 0 0)), None).
Proof.
  cbv zeta. split.
  - pose proof (Stat_not_found_iff unit
                  (canned (inr not_found_404) (inl {| KeyCount := 0 |}) [])
                  tt (fs_plain (str "bucket")) (str "missing.txt")) as T.
    cbv zeta in T.
    change (run (canned (inr not_found_404) (inl {| KeyCount := 0 |}) [])
              (Stat (fs_plain (str "bucket")) (str "missing.txt")) tt)
      with (@None FileInfo,
            Some (PathError (str "stat") (str "missing.txt") ErrNotExist), tt,
            [ mkEvent (HeadObject {| head_Bucket := str "bucket";
                                     head_Key := str "missing.txt" |})
                (inr not_found_404);
              mkEvent (ListObjectsV2 {| list_Bucket := str "bucket";
                                        list_Prefix := str "missing.txt";
                                        list_MaxKeys := 1 |})
                (inl {| KeyCount := 0 |}) ]) in T.
    cbv iota beta in T. destruct T as [T _]. apply T.
    exists not_found_404, {| KeyCount := 0 |}.
    repeat split. discriminate.
  - pose proof (Stat_not_found_iff unit
                  (canned (inr not_found_404) (inl {| KeyCount := 1 |}) [])
                  tt (fs_plain (str "bucket")) (str "photos")) as T.
    cbv zeta in T.
    change (run (canned (inr not_found_404) (inl {| KeyCount := 1 |}) [])
              (Stat (fs_plain (str "bucket")) (str "photos")) tt)
      with (Some (NewFileInfo (str "photos") true 0 (time_Unix 0 0)),
            @None error, tt,
            [ mkEvent (HeadObject {| head_Bucket := str "bucket";
                                     head_Key := str "photos" |})
                (inr not_found_404);
              mkEvent (ListObjectsV2 {| list_Bucket := str "bucket";
                                        list_Prefix := str "photos";
                                        list_MaxKeys := 1 |})
                (inl {| KeyCount := 1 |}) ]) in T.
    cbv iota beta in T. destruct T as [_ T].
    apply (T not_found_404 {| KeyCount := 1 |}); [reflexivity | reflexivity|].
    cbn. lia.
Defined.

(** ** OpenFile *)

Lemma has_flag_nonzero (flag bit : Z) :
  has_flag flag bit = true <-> Z.land flag bit <> 0%Z.
Proof.
  unfold has_flag. rewrite negb_true_iff. apply Z.eqb_neq.
Qed.

(** C6: for every path and every flag set that includes the read-write
    flag, [OpenFile] fails with [ErrNotSupported] and returns no handle,
    and likewise for every flag set that includes the append flag,
    whatever the other flags are.  No call is made. *)
Theorem OpenFile_rdwr_or_append_not_supported (fs : Fs) (name : gostring)
    (flag perm : Z) :
  Z.land flag os.O_RDWR <> 0%Z \/ Z.land flag os.O_APPEND <> 0%Z ->
  OpenFile fs name flag perm = Ret (None, Some ErrNotSupported).
Proof.
  intros H. unfold OpenFile.
  destruct (has_flag flag os.O_RDWR) eqn:E1; [reflexivity|].
  destruct (has_flag flag os.O_APPEND) eqn:E2; [reflexivity|].
  exfalso. destruct H as [H | H]; apply has_flag_nonzero in H; congruence.
Qed.

Lemma OpenFile_rdwr_or_append_witness :
  (Z.land (Z.lor os.O_RDWR os.O_CREATE) os.O_RDWR <> 0%Z
   /\ OpenFile (fs_plain (str "bucket")) (str "a.txt")
        (Z.lor os.O_RDWR os.O_CREATE) 420
      = Ret (None, Some ErrNotSupported))
  /\ (Z.land (Z.lor os.O_WRONLY os.O_APPEND) os.O_APPEND <> 0%Z
      /\ OpenFile (fs_plain (str "bucket")) (str "a.txt")
           (Z.lor os.O_WRONLY os.O_APPEND) 420
         = Ret (None, Some ErrNotSupported)).
Proof.
  split; (split; [vm_compute; discriminate|]).
  - apply OpenFile_rdwr_or_append_not_supported.
    left. vm_compute. discriminate.
  - apply OpenFile_rdwr_or_append_not_supported.
    right. vm_compute. discriminate.
Defined.

(** ** Chmod *)

Lemma land_pow2 (a k : Z) :
  (0 <= k)%Z -> Z.land a (2 ^ k) = if Z.testbit a k then (2 ^ k)%Z else 0%Z.
Proof.
  intros Hk. apply Z.bits_inj'. intros n Hn.
  rewrite Z.land_spec, Z.pow2_bits_eqb by exact Hk.
  destruct (Z.eqb_spec k n) as [-> | Hne].
  - rewrite andb_true_r. destruct (Z.testbit a n) eqn:E.
    + symmetry. apply Z.pow2_bits_true. exact Hn.
    + symmetry. apply Z.bits_0.
  - rewrite andb_false_r. destruct (Z.testbit a k).
    + symmetry. apply Z.pow2_bits_false. exact Hne.
    + symmetry. apply Z.bits_0.
Qed.

Lemma has_flag_testbit (a k : Z) :
  (0 <= k)%Z -> has_flag a (Z.shiftl 1 k) = Z.testbit a k.
Proof.
  intros Hk. unfold has_flag. rewrite Z.shiftl_1_l, land_pow2 by exact Hk.
  destruct (Z.testbit a k); [|reflexivity].
  apply negb_true_iff, Z.eqb_neq.
  pose proof (Z.pow_pos_nonneg 2 k). lia.
Qed.

(** C7: for every path and mode, [Chmod] makes one call, which sets the
    access-control level from the "other" read bit (bit 2) and the "other"
    write bit (bit 1) of the mode and from nothing else: both bits give
    public-read-write, the read bit alone gives public-read, and every
    other combination, the write bit alone included, gives private. *)
Theorem Chmod_sets_acl_from_other_bits (S : Type) (h : handler S) (s : S) (fs : Fs)
    (name : gostring) (mode : Z) :
  requests (snd (run h (Chmod fs name mode) s))
  = [ PutObjectAcl
        {| acl_Bucket := Bucket fs;
           acl_Key := Fs_sanitize fs name;
           acl_ACL :=
             match Z.testbit mode 2, Z.testbit mode 1 with
             | true, true => str "public-read-write"
             | true, false => str "public-read"
             | false, _ => str "private"
             end |} ].
Proof.
  unfold Chmod. cbn [bind call run]. destruct (h _ s) as [x s1].
  cbn [run snd requests map ev_req]. do 3 f_equal.
  unfold chmod_acl. rewrite !has_flag_testbit by lia.
  destruct (Z.testbit mode 2), (Z.testbit mode 1); reflexivity.
Qed.

(** ** Mkdir *)

(** The handle [Mkdir] opens its write stream on: [OpenFile] normalizes
    the path [Mkdir] hands it once more. *)
Lemma Mkdir_first_request (fs : Fs) (name : gostring) (perm : Z) :
  first_request (Mkdir fs name perm)
  = Some (openWriteStream
            (NewFile fs
               (Fs_sanitize fs (path.Clean (Fs_sanitize fs name) ++ str "/")))).
Proof. reflexivity. Qed.

Lemma MatchString_app_slash (x : gostring) :
  volumePrefixRegex_MatchString (x ++ str "/") = volumePrefixRegex_MatchString x.
Proof.
  destruct x as [|c [|c' r]]; try reflexivity.
  cbn. apply andb_false_r.
Qed.

Lemma Fs_sanitize_no_backslash (fs : Fs) (name : gostring) :
  RawMode fs = false ->
  Forall (fun c => c <> backslash) (Fs_sanitize fs name).
Proof.
  intros E. unfold Fs_sanitize. rewrite E. apply sanitize_no_backslash.
Qed.

(** C9, as stated, fails: for the name ["a:b:c"] the cleaned normalized
    name with a separator is ["b:c/"], and the marker is written at
    ["c/"]. *)
Lemma Mkdir_marker_not_cleaned_name :
  let fs := fs_plain (str "bucket") in
  path.Clean (Fs_sanitize fs (str "a:b:c")) ++ str "/" = str "b:c/"
  /\ first_request (Mkdir fs (str "a:b:c") 493)
     = Some (openWriteStream (NewFile fs (str "c/")))
  /\ first_request (Mkdir fs (str "a:b:c") 493)
     <> Some (openWriteStream
                (NewFile fs
                   (path.Clean (Fs_sanitize fs (str "a:b:c")) ++ str "/"))).
Proof. vm_compute. repeat split. discriminate. Qed.

Lemma strip_app_slash (name : gostring) :
  volumePrefixRegex_strip (name ++ str "/")
  = volumePrefixRegex_strip name ++ str "/".
Proof.
  unfold volumePrefixRegex_strip.
  destruct name as [|a [|b rest]]; try reflexivity.
  - cbn. rewrite andb_false_r. reflexivity.
  - cbn [app volumePrefixRegex_MatchString].
    destruct (is_alpha a && Ascii.eqb b colon); reflexivity.
Qed.

Lemma converted_app_slash (name : gostring) :
  converted (name ++ str "/") = converted name ++ str "/".
Proof.
  unfold converted. rewrite strip_app_slash. apply ReplaceAll_app.
Qed.

Lemma converted_blank (name : gostring) :
  string_eqb (strings.TrimSpace name) [] = true -> converted name = name.
Proof.
  intros E. apply string_eqb_eq, TrimSpace_empty_bytes in E.
  unfold converted, volumePrefixRegex_strip.
  assert (volumePrefixRegex_MatchString name = false) as ->.
  { destruct name as [|a [|b rest]]; try reflexivity.
    inversion E as [|? ? Ha _]; subst. cbn.
    rewrite (space_byte_not_alpha _ Ha). reflexivity. }
  apply ReplaceAll_id. eapply Forall_impl; [|exact E].
  apply space_byte_not_backslash.
Qed.

(** Cleaning a normalized name is cleaning the name in its converted
    form. *)
Lemma Clean_sanitize (name : gostring) :
  path.Clean (sanitize name) = path.Clean (converted name).
Proof.
  destruct (string_eqb (strings.TrimSpace name) []) eqn:E.
  - rewrite sanitize_blank, converted_blank by exact E. reflexivity.
  - rewrite sanitize_clean by exact E.
    destruct (strings.HasSuffix (converted name) (str "/")).
    + change (str "/") with [slash].
      rewrite CleanProofs.Clean_app_slash by apply CleanProofs.Clean_nonempty.
      apply CleanProofs.Clean_idempotent.
    + apply CleanProofs.Clean_idempotent.
Qed.

(** A separator after a name does not change the cleaned normalized name,
    as long as something is left of the name without its volume prefix. *)
Lemma Clean_Fs_sanitize_app_slash (fs : Fs) (name : gostring) :
  (if RawMode fs then name else converted name) <> [] ->
  path.Clean (Fs_sanitize fs (name ++ str "/"))
  = path.Clean (Fs_sanitize fs name).
Proof.
  unfold Fs_sanitize. destruct (RawMode fs); intros Hne.
  - apply CleanProofs.Clean_app_slash. exact Hne.
  - rewrite !Clean_sanitize, converted_app_slash.
    apply CleanProofs.Clean_app_slash. exact Hne.
Qed.

(** [OpenFile] with the create flag alone opens the write stream. *)
Lemma OpenFile_create (fs : Fs) (name : gostring) (perm : Z) :
  OpenFile fs name os.O_CREATE perm
  = bind (call (openWriteStream (NewFile fs (Fs_sanitize fs name))))
      (fun err => Ret (Some (NewFile fs (Fs_sanitize fs name)), err)).
Proof. reflexivity. Qed.

(** What [Mkdir] asks of the file handle: a write stream, and to close it
    when the stream was opened. *)
Lemma Mkdir_requests {S : Type} (h : handler S) (s : S) (fs : Fs)
    (name : gostring) (perm : Z) :
  let file :=
    NewFile fs (Fs_sanitize fs (path.Clean (Fs_sanitize fs name) ++ str "/")) in
  requests (snd (run h (Mkdir fs name perm) s))
  = match fst (h (openWriteStream file) s) with
    | None => [openWriteStream file; Close file]
    | Some _ => [openWriteStream file]
    end.
Proof.
  cbv zeta. unfold Mkdir. rewrite OpenFile_create.
  rewrite !run_bind, run_call. cbn [run].
  destruct (fst (h (openWriteStream _) s)) as [e|].
  - reflexivity.
  - cbv beta iota.
    rewrite (run_call h (Close (NewFile fs
               (Fs_sanitize fs (path.Clean (Fs_sanitize fs name) ++ str "/"))))).
    reflexivity.
Qed.

Module CleanSuffix.
Import CleanSpec CleanProofs.

(** The cleaned form of a relative path is not the root. *)
Lemma Clean_relative_not_root (c : ascii) (r : list ascii) :
  is_slash c = false -> path.Clean (c :: r) <> [slash].
Proof.
  intros Hc. rewrite Clean_elems. unfold CleanSpec.Clean, render. rewrite Hc.
  pose proof (run_elems_wf false (c :: r) ([], 0) (wf_stack_init _)) as Hwf.
  set (st := run_elems false (c :: r) ([], 0)) in *.
  pose proof (stack_elems_nonempty _ _ Hwf) as H1.
  pose proof (stack_elems_no_slash _ _ Hwf) as H2.
  apply Forall_rev in H1. apply Forall_rev in H2.
  destruct (rev (stack_elems st)) as [|e es]; [discriminate|].
  inversion H1 as [|? ? He _]; inversion H2 as [|? ? Hs _]; subst.
  destruct (join_head e es He) as (x & xs & Ej & Ex). rewrite Ej.
  destruct e as [|x' e']; [congruence|]. cbn in Ex. injection Ex as ->.
  inversion Hs as [|? ? Hx _]; subst. intros E. injection E as -> _.
  discriminate.
Qed.

(** A rooted path of elements the loop copies is clean. *)
Lemma Clean_rooted_reals (es : list (list ascii)) :
  Forall real_elem es -> path.Clean (slash :: join es) = slash :: join es.
Proof.
  intros Hes.
  assert (wf_stack true (rev es, 0)) as Hwf.
  { split; [apply Forall_rev; exact Hes | reflexivity]. }
  pose proof (Clean_rout true (rev es, 0) Hwf) as H.
  rewrite rev_rout in H. unfold stack_elems in H. cbn [fst snd repeat] in H.
  rewrite app_nil_r, rev_involutive in H. apply H.
  unfold rout. intros E. apply app_eq_nil in E. destruct E; discriminate.
Qed.

(** What follows the first two bytes of a cleaned relative path, when the
    second byte is a colon, does not clean to the root. *)
Lemma Clean_after_colon (q : gostring) (a : ascii) (r : list ascii) :
  path.Clean q = a :: colon :: r -> is_slash a = false -> r <> [] ->
  path.Clean r <> [slash].
Proof.
  intros Hx Ha Hr.
  destruct (Clean_shape q) as (rooted & st & Hwf & E). rewrite E in Hx.
  destruct (rout rooted st) as [|b0 bs] eqn:E'; [discriminate|].
  rewrite <- E', rev_rout in Hx.
  destruct rooted; cbn [app] in Hx;
    [injection Hx as <- _; discriminate|].
  destruct st as [reals n]. destruct Hwf as [Hreal _].
  unfold stack_elems in Hx. cbn [fst snd] in Hx, Hreal.
  rewrite rev_app_distr, rev_repeat in Hx.
  destruct n as [|n].
  2:{ cbn [repeat app join] in Hx.
      destruct (repeat dotdot_elem n ++ rev reals); discriminate. }
  cbn [repeat app] in Hx. apply Forall_rev in Hreal.
  destruct (rev reals) as [|e1 rest]; [discriminate|].
  inversion Hreal as [|? ? He1 Hrest]; subst.
  destruct He1 as (_ & Hns & _).
  destruct rest as [|e2 rest'].
  - cbn [join] in Hx. subst e1.
    inversion Hns as [|? ? _ Hns1]; subst.
    inversion Hns1 as [|? ? _ Hns2]; subst.
    destruct r as [|c r']; [congruence|].
    inversion Hns2; subst. apply Clean_relative_not_root. assumption.
  - change (join (e1 :: e2 :: rest'))
      with (e1 ++ slash :: join (e2 :: rest')) in Hx.
    destruct e1 as [|x1 [|x2 e1']].
    + cbn [app] in Hx. injection Hx as <- _. discriminate.
    + cbn [app] in Hx. injection Hx as _ Hc _. discriminate.
    + cbn [app] in Hx. injection Hx as _ _ Hx.
      inversion Hns as [|? ? _ Hns1]; subst.
      inversion Hns1 as [|? ? _ Hns2]; subst.
      destruct e1' as [|c e1''].
      * change (path.Clean (slash :: join (e2 :: rest')) <> [slash]).
        rewrite Clean_rooted_reals by exact Hrest.
        inversion Hrest as [|? ? He2 _]; subst.
        destruct (join_head e2 rest' (proj1 He2)) as (y & ys & Ej & _).
        rewrite Ej. discriminate.
      * cbn [app]. inversion Hns2; subst.
        apply Clean_relative_not_root. assumption.
Qed.

End CleanSuffix.

Lemma is_alpha_not_slash (c : ascii) : is_alpha c = true -> is_slash c = false.
Proof.
  intros H. destruct (is_slash c) eqn:E; [|reflexivity].
  apply is_slash_true in E. subst c. discriminate.
Qed.

(** How a key made of a cleaned path and a separator ends. *)
Lemma cleaned_key_trailing (q : gostring) :
  let key := path.Clean q ++ str "/" in
  trailing_slashes key = (if string_eqb key (str "//") then 2 else 1)
  /\ (key = str "//" <-> path.Clean q = str "/").
Proof.
  cbv zeta. destruct (Clean_root_or_open q) as [E | E].
  - rewrite E. split; [reflexivity | split; reflexivity].
  - assert (path.Clean q <> str "/") as Hne.
    { intros E'. rewrite E' in E. discriminate. }
    assert (path.Clean q ++ str "/" <> str "//") as Hk.
    { intros E'. apply Hne.
      change (str "//") with (str "/" ++ str "/") in E'.
      apply app_inv_tail in E'. exact E'. }
    split.
    + rewrite trailing_slashes_app_slash by exact E.
      apply string_eqb_neq in Hk. rewrite Hk. reflexivity.
    + split; intros H; [contradiction|]. rewrite H in Hk. contradiction.
Qed.

(** The key [OpenFile] puts the handle of [Mkdir] on. *)
Lemma Mkdir_key (fs : Fs) (name : gostring) :
  let x := path.Clean (Fs_sanitize fs name) in
  Fs_sanitize fs (x ++ str "/")
  = (if RawMode fs then x
     else path.Clean (volumePrefixRegex_strip x ++ str "/")) ++ str "/".
Proof.
  cbv zeta. unfold Fs_sanitize at 1.
  destruct (RawMode fs) eqn:Eraw; [reflexivity|].
  rewrite sanitize_clean.
  2:{ apply TrimSpace_with_slash. apply in_or_app. right. left. reflexivity. }
  rewrite converted_app_slash, HasSuffix_app_slash. do 3 f_equal.
  unfold converted. apply ReplaceAll_id.
  assert (Forall (fun c => c <> backslash) (path.Clean (Fs_sanitize fs name)))
    as H.
  { apply CleanProofs.Clean_bytes; try discriminate.
    apply Fs_sanitize_no_backslash. exact Eraw. }
  unfold volumePrefixRegex_strip.
  destruct (volumePrefixRegex_MatchString _); [|exact H].
  destruct (path.Clean (Fs_sanitize fs name)) as [|a [|b r]];
    [exact H | constructor |].
  inversion H as [|? ? _ H1]; subst. inversion H1; subst. assumption.
Qed.

(** The cleaned name without its volume prefix cleans to the root when
    it is the root, or the volume prefix alone. *)
Lemma Clean_strip_root (q : gostring) :
  let x := path.Clean q in
  path.Clean (volumePrefixRegex_strip x ++ str "/") = str "/"
  <-> x = str "/" \/ exists c, is_alpha c = true /\ x = [c; colon].
Proof.
  cbv zeta. unfold volumePrefixRegex_strip.
  destruct (volumePrefixRegex_MatchString (path.Clean q)) eqn:Hm.
  - destruct (path.Clean q) as [|a [|b r]] eqn:Ex; try discriminate.
    cbn in Hm. apply andb_true_iff in Hm. destruct Hm as [Ha Hb].
    apply Ascii.eqb_eq in Hb. subst b. cbn [skipn].
    destruct r as [|c r'].
    + split; [|reflexivity]. intros _. right. exists a. auto.
    + change (str "/") with [slash].
      rewrite CleanProofs.Clean_app_slash by discriminate.
      split.
      * intros E. exfalso.
        eapply (CleanSuffix.Clean_after_colon q a (c :: r')); eauto.
        -- apply is_alpha_not_slash. exact Ha.
        -- discriminate.
      * intros [E | (c0 & _ & E)]; [|discriminate].
        injection E as -> _. discriminate.
  - change (str "/") with [slash].
    rewrite CleanProofs.Clean_app_slash by apply CleanProofs.Clean_nonempty.
    rewrite CleanProofs.Clean_idempotent.
    split; [auto|]. intros [E | (c & Hc & E)]; [exact E|].
    rewrite E in Hm. cbn in Hm. rewrite Hc in Hm. discriminate.
Qed.

(** C9, amended: for every name and permission, [Mkdir] writes its
    directory marker at the key obtained by lexically cleaning the
    normalized name and appending exactly one separator, if and only if
    the handle is in raw mode or the cleaned name does not start with a
    volume prefix (a letter and a colon); a name that is not empty once
    its volume prefix is stripped and the same name followed by a
    separator address the same marker key, so that ["dir"] and ["dir/"]
    both address ["dir/"]; the marker key always ends in a separator, and
    in exactly one unless the key is ["//"], which it is exactly when the
    cleaned normalized name is the root ["/"] or, outside raw mode, a
    volume prefix and nothing more, so that the name ["/"] addresses
    ["//"]; [MkdirAll] is [Mkdir]. *)
Theorem Mkdir_marker_key (fs : Fs) (name : gostring) (perm : Z) :
  (first_request (Mkdir fs name perm)
   = Some (openWriteStream
             (NewFile fs (path.Clean (Fs_sanitize fs name) ++ str "/")))
   <-> RawMode fs = true
       \/ volumePrefixRegex_MatchString (path.Clean (Fs_sanitize fs name))
          = false)
  /\ ((if RawMode fs then name else converted name) <> [] ->
      first_request (Mkdir fs (name ++ str "/") perm)
      = first_request (Mkdir fs name perm))
  /\ (exists key,
         first_request (Mkdir fs name perm)
         = Some (openWriteStream (NewFile fs key))
         /\ trailing_slashes key = (if string_eqb key (str "//") then 2 else 1)
         /\ (key = str "//"
             <-> path.Clean (Fs_sanitize fs name) = str "/"
                 \/ (RawMode fs = false
                     /\ exists c,
                          is_alpha c = true
                          /\ path.Clean (Fs_sanitize fs name) = [c; colon])))
  /\ first_request (Mkdir fs (str "dir") perm)
     = Some (openWriteStream (NewFile fs (str "dir/")))
  /\ first_request (Mkdir fs (str "dir/") perm)
     = Some (openWriteStream (NewFile fs (str "dir/")))
  /\ first_request (Mkdir fs (str "/") perm)
     = Some (openWriteStream (NewFile fs (str "//")))
  /\ MkdirAll fs name perm = Mkdir fs name perm.
Proof.
  split; [|split; [|split; [|split; [|split; [|split; [|reflexivity]]]]]].
  - rewrite Mkdir_first_request. split.
    + intros E. injection E as E. unfold Fs_sanitize at 1 in E.
      destruct (RawMode fs) eqn:Eraw; [left; reflexivity | right].
      destruct (volumePrefixRegex_MatchString
                  (path.Clean (Fs_sanitize fs name))) eqn:Hm; [|reflexivity].
      rewrite <- MatchString_app_slash in Hm.
      apply sanitize_volume_shorter in Hm.
      change (str "/") with [slash] in Hm. change ["/"%char] with [slash] in E.
      rewrite E in Hm. lia.
    + intros H. do 3 f_equal.
      unfold Fs_sanitize at 1. destruct (RawMode fs) eqn:Eraw; [reflexivity|].
      destruct H as [H | H]; [discriminate|].
      apply (sanitize_cleaned (Fs_sanitize fs name) true).
      * apply Fs_sanitize_no_backslash. exact Eraw.
      * discriminate.
      * rewrite MatchString_app_slash. exact H.
  - intros Hne. rewrite !Mkdir_first_request.
    rewrite Clean_Fs_sanitize_app_slash by exact Hne. reflexivity.
  - exists (Fs_sanitize fs (path.Clean (Fs_sanitize fs name) ++ str "/")).
    split; [apply Mkdir_first_request|].
    rewrite Mkdir_key. destruct (RawMode fs) eqn:Eraw.
    + destruct (cleaned_key_trailing (Fs_sanitize fs name)) as [T K].
      split; [exact T|]. rewrite K. split; [auto|].
      intros [E | [E _]]; [exact E | discriminate].
    + destruct (cleaned_key_trailing
                  (volumePrefixRegex_strip (path.Clean (Fs_sanitize fs name))
                   ++ str "/")) as [T K].
      split; [exact T|]. rewrite K, Clean_strip_root. split.
      * intros [E | E]; [left | right; split]; auto.
      * intros [E | [_ E]]; auto.
  - rewrite Mkdir_first_request. unfold Fs_sanitize.
    destruct (RawMode fs); reflexivity.
  - rewrite Mkdir_first_request. unfold Fs_sanitize.
    destruct (RawMode fs); reflexivity.
  - rewrite Mkdir_first_request. unfold Fs_sanitize.
    destruct (RawMode fs); reflexivity.
Qed.

Lemma Mkdir_marker_key_witness :
  let fs := fs_plain (str "bucket") in
  (volumePrefixRegex_MatchString
     (path.Clean (Fs_sanitize fs (str "C:\photos\2024/"))) = false
   /\ first_request (Mkdir fs (str "C:\photos\2024/") 493)
      = Some (openWriteStream (NewFile fs (str "/photos/2024/"))))
  /\ (converted (str "C:\photos\2024") <> []
      /\ first_request (Mkdir fs (str "C:\photos\2024" ++ str "/") 493)
         = first_request (Mkdir fs (str "C:\photos\2024") 493)).
Proof.
  cbv zeta.
  destruct (Mkdir_marker_key (fs_plain (str "bucket"))
              (str "C:\photos\2024/") 493) as (T1 & _).
  destruct (Mkdir_marker_key (fs_plain (str "bucket"))
              (str "C:\photos\2024") 493) as (_ & T2 & _).
  split; split.
  - reflexivity.
  - apply (proj2 T1). right. reflexivity.
  - vm_compute. discriminate.
  - apply T2. vm_compute. discriminate.
Defined.

(** ** RemoveAll *)

Lemma run_forceRemove {S : Type} (h : handler S) (fs : Fs) (name : gostring)
    (s : S) :
  let rq := DeleteObject {| del_Bucket := Bucket fs; del_Key := name |} in
  run h (forceRemove fs name) s
  = (sdk_err (fst (h rq s)), snd (h rq s), [mkEvent rq (fst (h rq s))]).
Proof.
  cbv zeta. unfold forceRemove. cbn [bind call run].
  destruct (h _ s). reflexivity.
Qed.

(** A walk that succeeds ends with the deletion of the marker. *)
Lemma RemoveAll_range_last {S : Type} (h : handler S)
    (rec : gostring -> Prog (option (option error))) (fs : Fs) (s3dir : File)
    (fis : list FileInfo) :
  forall (s s' : S) (tr : list Event),
    run h (RemoveAll_range rec fs s3dir fis) s = (Some None, s', tr) ->
    exists tr0 resp,
      tr = tr0 ++ [mkEvent (DeleteObject {| del_Bucket := Bucket fs;
                                            del_Key := Name s3dir ++ str "/" |})
                     resp].
Proof.
  induction fis as [|fi fis IH]; intros s s' tr E.
  - cbn [RemoveAll_range] in E. rewrite run_bind, run_forceRemove in E.
    cbn [run] in E. injection E as _ _ <-.
    exists [], (fst (h (DeleteObject {| del_Bucket := Bucket fs;
                                   del_Key := Name s3dir ++ str "/" |}) s)).
    reflexivity.
  - cbn [RemoveAll_range] in E. destruct (IsDir fi).
    + rewrite run_bind in E.
      destruct (run h (rec (path.Join (Name s3dir) (fi_name fi))) s)
        as [[r s1] tr1].
      destruct r as [[e|]|].
      * cbn [run] in E. discriminate.
      * destruct (run h (RemoveAll_range rec fs s3dir fis) s1)
          as [[b s2] tr2] eqn:E2.
        injection E as -> -> <-.
        destruct (IH _ _ _ E2) as (tr0 & resp & ->).
        exists (tr1 ++ tr0), resp. apply app_assoc.
      * cbn [run] in E. discriminate.
    + rewrite run_bind, run_forceRemove in E.
      destruct (sdk_err _) as [e|].
      * cbn [run] in E. discriminate.
      * destruct (run h (RemoveAll_range rec fs s3dir fis) _)
          as [[b s2] tr2] eqn:E2.
        injection E as -> -> <-.
        destruct (IH _ _ _ E2) as (tr0 & resp & ->).
        eexists (_ :: tr0), resp. reflexivity.
Qed.

Lemma RemoveAll_last {S : Type} (h : handler S) (fuel : nat) (fs : Fs)
    (name : gostring) (s s' : S) (tr : list Event) :
  run h (RemoveAll fuel fs name) s = (Some None, s', tr) ->
  exists tr0 resp,
    tr = tr0 ++ [mkEvent (DeleteObject
                            {| del_Bucket := Bucket fs;
                               del_Key := Fs_sanitize fs name ++ str "/" |})
                   resp].
Proof.
  destruct fuel as [|fuel]; [discriminate|].
  cbn [RemoveAll bind call run]. destruct (h _ s) as [r s1].
  destruct r as [fis | err]; [|discriminate].
  destruct (run h (RemoveAll_range _ _ _ fis) s1) as [[b s2] tr2] eqn:E2.
  intros E. injection E as -> -> <-.
  apply RemoveAll_range_last in E2. cbn [Name] in E2.
  destruct E2 as (tr0 & resp & ->).
  eexists (_ :: tr0), resp. reflexivity.
Qed.

Lemma HasSuffix_slash_inv (s : gostring) :
  strings.HasSuffix s (str "/") = true -> exists s', s = s' ++ [slash].
Proof.
  rewrite HasSuffix_slash. destruct (rev s) as [|c r] eqn:E; [discriminate|].
  intros Hc. apply is_slash_true in Hc. subst c. exists (rev r).
  apply (f_equal (@rev ascii)) in E. rewrite rev_involutive in E. exact E.
Qed.

Lemma HasSuffix_two_slashes (s : gostring) :
  strings.HasSuffix s (str "/") = true ->
  strings.HasSuffix (s ++ str "/") (str "//") = true.
Proof.
  intros H. apply HasSuffix_slash_inv in H. destruct H as [s' ->].
  unfold strings.HasSuffix. rewrite <- app_assoc.
  cbn [str String.list_ascii_of_string app length].
  rewrite length_app. cbn [length].
  replace (length s' + 2 - 2) with (length s' + 0) by lia.
  rewrite skipn_app, Nat.add_0_r, skipn_all.
  replace (length s' - length s') with 0 by lia.
  replace (2 <=? length s' + 2) with true by (symmetry; apply Nat.leb_le; lia).
  reflexivity.
Qed.

(** The marker key of [Mkdir] is the normalized name with a separator
    after it, for a normalized name that ends in a separator, at the root
    and nowhere else. *)
Lemma Mkdir_key_same_iff (fs : Fs) (s : gostring) :
  strings.HasSuffix s (str "/") = true ->
  Fs_sanitize fs (path.Clean s ++ str "/") = s ++ str "/" <-> s = str "/".
Proof.
  intros Hs. split.
  - intros E.
    assert (forall q, path.Clean q = s -> s = str "/") as Hclean.
    { intros q Eq. rewrite <- Eq in Hs |- *.
      apply CleanProofs.Clean_ends_slash. exact Hs. }
    unfold Fs_sanitize in E. destruct (RawMode fs).
    + apply app_inv_tail in E. eapply Hclean. exact E.
    + rewrite sanitize_clean in E.
      2:{ apply TrimSpace_with_slash. apply in_or_app. right. left.
          reflexivity. }
      rewrite HasSuffix_converted, ReplaceAll_app in E.
      change (strings.ReplaceAll (str "/") backslash slash) with (str "/") in E.
      rewrite HasSuffix_app_slash in E.
      apply app_inv_tail in E. eapply Hclean. exact E.
  - intros ->. unfold Fs_sanitize. destruct (RawMode fs); reflexivity.
Qed.

(** C10, as stated, fails at the root: the name ["/."] normalizes to
    ["/"], the final deletion of [RemoveAll] targets ["//"], and ["//"] is
    the marker key [Mkdir] writes for the same name. *)
Lemma RemoveAll_root_marker_is_Mkdir_key :
  let fs := fs_plain (str "bucket") in
  let h := canned (inr not_found_404) (inr not_found_404) [] in
  strings.HasSuffix (Fs_sanitize fs (str "/.")) (str "/") = true
  /\ requests (snd (run h (RemoveAll 1 fs (str "/.")) tt))
     = [ Readdir (NewFile fs (str "/")) 0;
         DeleteObject {| del_Bucket := str "bucket"; del_Key := str "//" |} ]
  /\ first_request (Mkdir fs (str "/.") 493)
     = Some (openWriteStream (NewFile fs (str "//"))).
Proof. vm_compute. repeat split. Qed.

(** C10, amended: for every name whose normalized form ends in a
    separator, a [RemoveAll] that succeeds ends with the deletion of the
    normalized name with one more separator appended, a key that ends in
    two separators; this key is not the marker key [Mkdir] writes for the
    same name, except when the normalized name is the root ["/"], where
    both keys are ["//"]. *)
Theorem RemoveAll_marker_key (S : Type) (h : handler S) (fuel : nat)
    (fs : Fs) (name : gostring) (perm : Z) (s s' : S) (tr : list Event) :
  strings.HasSuffix (Fs_sanitize fs name) (str "/") = true ->
  run h (RemoveAll fuel fs name) s = (Some None, s', tr) ->
  let key := Fs_sanitize fs name ++ str "/" in
  (exists tr0 resp,
     tr = tr0 ++ [mkEvent (DeleteObject {| del_Bucket := Bucket fs;
                                           del_Key := key |}) resp])
  /\ strings.HasSuffix key (str "//") = true
  /\ (first_request (Mkdir fs name perm)
      = Some (openWriteStream (NewFile fs key))
      <-> Fs_sanitize fs name = str "/").
Proof.
  intros Hs Hrun key. split; [|split].
  - eapply RemoveAll_last. exact Hrun.
  - apply HasSuffix_two_slashes. exact Hs.
  - rewrite Mkdir_first_request, <- (Mkdir_key_same_iff fs _ Hs).
    split; [intros E; injection E as E; exact E | intros ->; reflexivity].
Qed.

Lemma RemoveAll_marker_key_witness :
  let fs := fs_plain (str "bucket") in
  let h := canned (inr not_found_404) (inr not_found_404) [] in
  let tr := [ mkEvent (Readdir (NewFile fs (str "dir/")) 0) (inl []);
              mkEvent (DeleteObject {| del_Bucket := str "bucket";
                                       del_Key := str "dir//" |}) None ] in
  strings.HasSuffix (Fs_sanitize fs (str "dir/")) (str "/") = true
  /\ run h (RemoveAll 1 fs (str "dir/")) tt = (Some None, tt, tr)
  /\ (exists tr0 resp,
        tr = tr0 ++ [mkEvent (DeleteObject {| del_Bucket := str "bucket";
                                              del_Key := str "dir//" |}) resp])
  /\ first_request (Mkdir fs (str "dir/") 493)
     <> Some (openWriteStream (NewFile fs (str "dir//"))).
Proof.
  cbv zeta.
  assert (run (canned (inr not_found_404) (inr not_found_404) [])
            (RemoveAll 1 (fs_plain (str "bucket")) (str "dir/")) tt
          = (Some None, tt,
             [ mkEvent (Readdir (NewFile (fs_plain (str "bucket")) (str "dir/")) 0)
                 (inl []);
               mkEvent (DeleteObject {| del_Bucket := str "bucket";
                                        del_Key := str "dir//" |}) None ]))
    as Hrun by reflexivity.
  split; [reflexivity|]. split; [exact Hrun|].
  destruct (RemoveAll_marker_key unit
              (canned (inr not_found_404) (inr not_found_404) []) 1
              (fs_plain (str "bucket")) (str "dir/") 493 tt tt _
              eq_refl Hrun)
    as (T1 & _ & T3).
  split; [exact T1|].
  intros E. apply (proj1 T3) in E. vm_compute in E. discriminate.
Defined.

(** *** The bound on the depth of the walk

    A walk that ends within the bound ends the same way, with the same
    calls, under any larger bound: the result [Some err] is the result of
    the method, not of the bound. *)

Lemma RemoveAll_range_more {S : Type} (h : handler S)
    (rec rec' : gostring -> Prog (option (option error))) (fs : Fs)
    (s3dir : File) (fis : list FileInfo) :
  (forall p s r s' tr,
      run h (rec p) s = (Some r, s', tr) ->
      run h (rec' p) s = (Some r, s', tr)) ->
  forall s r s' tr,
    run h (RemoveAll_range rec fs s3dir fis) s = (Some r, s', tr) ->
    run h (RemoveAll_range rec' fs s3dir fis) s = (Some r, s', tr).
Proof.
  intros Hrec. induction fis as [|fi fis IH]; intros s r s' tr E.
  - exact E.
  - cbn [RemoveAll_range] in *. destruct (IsDir fi).
    + rewrite run_bind in *.
      destruct (run h (rec (path.Join (Name s3dir) (fi_name fi))) s)
        as [[r0 s1] tr1] eqn:E1.
      destruct r0 as [r0|].
      * rewrite (Hrec _ _ _ _ _ E1).
        destruct r0 as [e|]; [exact E|].
        destruct (run h (RemoveAll_range rec fs s3dir fis) s1)
          as [[b s2] tr2] eqn:E2.
        injection E as -> -> <-. rewrite (IH _ _ _ _ E2). reflexivity.
      * cbn [run] in E. discriminate.
    + rewrite run_bind in *.
      destruct (run h (forceRemove fs (path.Join (Name s3dir) (fi_name fi))) s)
        as [[e s1] tr1].
      destruct e as [e|]; [exact E|].
      destruct (run h (RemoveAll_range rec fs s3dir fis) s1)
        as [[b s2] tr2] eqn:E2.
      injection E as -> -> <-. rewrite (IH _ _ _ _ E2). reflexivity.
Qed.

Lemma RemoveAll_S (fuel : nat) (fs : Fs) (name : gostring) :
  RemoveAll (S fuel) fs name
  = bind (call (Readdir (NewFile fs (Fs_sanitize fs name)) 0))
      (fun r =>
         match r with
         | inr err => Ret (Some (Some err))
         | inl fis =>
             RemoveAll_range (RemoveAll fuel fs) fs
               (NewFile fs (Fs_sanitize fs name)) fis
         end).
Proof. reflexivity. Qed.

Lemma RemoveAll_more_fuel {S : Type} (h : handler S) (fs : Fs) (fuel : nat) :
  forall (name : gostring) (s : S) (r : option error) (s' : S)
         (tr : list Event),
    run h (RemoveAll fuel fs name) s = (Some r, s', tr) ->
    run h (RemoveAll (Datatypes.S fuel) fs name) s = (Some r, s', tr).
Proof.
  induction fuel as [|fuel IH]; intros name s r s' tr E; [discriminate|].
  rewrite RemoveAll_S in E. rewrite (RemoveAll_S (Datatypes.S fuel)).
  cbn [bind call run] in *.
  destruct (h _ s) as [x s1]. destruct x as [fis | err]; [|exact E].
  destruct (run h (RemoveAll_range (RemoveAll fuel fs) fs _ fis) s1)
    as [[b s2] tr2] eqn:E2.
  injection E as -> -> <-.
  rewrite (RemoveAll_range_more h (RemoveAll fuel fs)
             (RemoveAll (Datatypes.S fuel) fs)
             fs _ fis (fun p => IH p) _ _ _ _ E2).
  reflexivity.
Qed.

(** * More of the package

    Properties of the methods and helpers beyond the claims above. *)

(** ** More on [path.Clean] *)

Lemma HasPrefix_slash (s : gostring) :
  strings.HasPrefix s (str "/")
  = match s with c :: _ => is_slash c | [] => false end.
Proof.
  destruct s as [|c [|c' s]]; [reflexivity| |]; cbn; apply andb_true_r.
Qed.

Module CleanMore.
Import CleanSpec CleanProofs.

(** A path of one element that is neither [.] nor [..] is clean. *)
Lemma Clean_one_elem (p : gostring) :
  p <> [] -> no_slash p -> p <> [dot] -> p <> dotdot_elem ->
  path.Clean p = p.
Proof.
  intros Hne Hns Hd Hdd. rewrite Clean_elems.
  destruct p as [|c r]; [congruence|].
  unfold CleanSpec.Clean. inversion Hns as [|? ? Hc _]; subst. rewrite Hc.
  unfold run_elems. rewrite split_slash_no_slash by exact Hns.
  cbn [fold_left]. rewrite step_real by (repeat split; assumption).
  reflexivity.
Qed.

(** A cleaned path does not start with two slashes. *)
Lemma Clean_second_byte (p : gostring) (c : ascii) (r : list ascii) :
  path.Clean p = slash :: c :: r -> is_slash c = false.
Proof.
  destruct (Clean_shape p) as (rooted & st & Hwf & E). rewrite E.
  destruct (rout rooted st) as [|b bs] eqn:E'; [discriminate|].
  rewrite <- E', rev_rout.
  pose proof (stack_elems_nonempty _ _ Hwf) as H1.
  pose proof (stack_elems_no_slash _ _ Hwf) as H2.
  apply Forall_rev in H1. apply Forall_rev in H2.
  destruct (rev (stack_elems st)) as [|e es] eqn:Ee.
  - destruct rooted; discriminate.
  - inversion H1 as [|? ? He _]; inversion H2 as [|? ? Hs _]; subst.
    destruct (join_head e es He) as (x & xs & Ej & Ex). rewrite Ej.
    assert (is_slash x = false) as Hx.
    { destruct e as [|x' e']; [congruence|]. cbn in Ex. injection Ex as ->.
      inversion Hs; assumption. }
    destruct rooted; cbn [app]; intros H; injection H as H0 H1'.
    + subst. exact Hx.
    + subst x. discriminate.
Qed.

(** [Clean] keeps a rooted path rooted and a relative path relative. *)
Lemma Clean_rooted (p : gostring) :
  strings.HasPrefix (path.Clean p) (str "/") = strings.HasPrefix p (str "/").
Proof.
  rewrite !HasPrefix_slash, Clean_elems.
  destruct p as [|c r]; [reflexivity|].
  unfold CleanSpec.Clean, render.
  pose proof (run_elems_wf (is_slash c) (c :: r) ([], 0)
                (wf_stack_init _)) as Hwf.
  set (st := run_elems (is_slash c) (c :: r) ([], 0)) in *.
  destruct (is_slash c) eqn:Hc; [reflexivity|].
  pose proof (stack_elems_nonempty _ _ Hwf) as H1.
  pose proof (stack_elems_no_slash _ _ Hwf) as H2.
  apply Forall_rev in H1. apply Forall_rev in H2.
  destruct (rev (stack_elems st)) as [|e es]; [reflexivity|].
  inversion H1 as [|? ? He _]; inversion H2 as [|? ? Hs _]; subst.
  destruct (join_head e es He) as (x & xs & Ej & Ex). rewrite Ej.
  destruct e as [|x' e']; [congruence|]. cbn in Ex. injection Ex as ->.
  inversion Hs; assumption.
Qed.

End CleanMore.

(** ** More on the path normalizer *)

Lemma ReplaceAll_idempotent (p : gostring) :
  strings.ReplaceAll (strings.ReplaceAll p backslash slash) backslash slash
  = strings.ReplaceAll p backslash slash.
Proof. apply ReplaceAll_id, ReplaceAll_no_backslash. Qed.

Lemma ReplaceAll_no_slash_id (p : gostring) :
  ~ In slash (strings.ReplaceAll p backslash slash) ->
  strings.ReplaceAll p backslash slash = p.
Proof.
  intros H. apply ReplaceAll_id. apply Forall_forall. intros c Hc Ec. subst c.
  apply H. unfold strings.ReplaceAll. apply in_map_iff.
  exists backslash. split; [reflexivity | exact Hc].
Qed.

Lemma blank_no_slash (p : gostring) :
  string_eqb (strings.TrimSpace p) [] = true -> ~ In slash p.
Proof.
  intros E Hin. apply TrimSpace_with_slash in Hin. congruence.
Qed.

Lemma blank_no_backslash (p : gostring) :
  string_eqb (strings.TrimSpace p) [] = true ->
  strings.ReplaceAll p backslash slash = p.
Proof.
  intros E. apply string_eqb_eq, TrimSpace_empty_bytes in E.
  apply ReplaceAll_id. eapply Forall_impl; [|exact E].
  apply space_byte_not_backslash.
Qed.

(** Converting the separators does not change whether a name is blank. *)
Lemma blank_ReplaceAll (p : gostring) :
  string_eqb (strings.TrimSpace (strings.ReplaceAll p backslash slash)) []
  = string_eqb (strings.TrimSpace p) [].
Proof.
  destruct (string_eqb (strings.TrimSpace p) []) eqn:E.
  - rewrite blank_no_backslash by exact E. exact E.
  - destruct (string_eqb
                (strings.TrimSpace (strings.ReplaceAll p backslash slash)) [])
      eqn:E'; [|reflexivity].
    pose proof (blank_no_slash _ E') as Hns.
    apply ReplaceAll_no_slash_id in Hns. rewrite Hns in E'. congruence.
Qed.

Lemma replace_is_alpha (c : ascii) :
  is_alpha (if Ascii.eqb c backslash then slash else c) = is_alpha c.
Proof.
  destruct (Ascii.eqb c backslash) eqn:E; [|reflexivity].
  apply Ascii.eqb_eq in E. subst c. reflexivity.
Qed.

Lemma replace_is_colon (c : ascii) :
  Ascii.eqb (if Ascii.eqb c backslash then slash else c) colon
  = Ascii.eqb c colon.
Proof.
  destruct (Ascii.eqb c backslash) eqn:E; [|reflexivity].
  apply Ascii.eqb_eq in E. subst c. reflexivity.
Qed.

Lemma converted_ReplaceAll (p : gostring) :
  converted (strings.ReplaceAll p backslash slash) = converted p.
Proof.
  unfold converted, volumePrefixRegex_strip.
  assert (volumePrefixRegex_MatchString (strings.ReplaceAll p backslash slash)
          = volumePrefixRegex_MatchString p) as ->.
  { destruct p as [|a [|b rest]]; try reflexivity.
    unfold strings.ReplaceAll. cbn [map volumePrefixRegex_MatchString].
    rewrite replace_is_alpha, replace_is_colon. reflexivity. }
  destruct (volumePrefixRegex_MatchString p).
  - destruct p as [|a [|b rest]]; try reflexivity.
    unfold strings.ReplaceAll at 2. cbn [map skipn].
    apply ReplaceAll_idempotent.
  - apply ReplaceAll_idempotent.
Qed.

(** X1: the normalized form of a path holds no backslash, whatever the
    path. *)
Theorem sanitize_forward_slashes_only (p : gostring) :
  ~ In backslash (sanitize p).
Proof.
  intros H. pose proof (sanitize_no_backslash p) as F.
  rewrite Forall_forall in F. exact (F _ H eq_refl).
Qed.

(** X2: the normalized form of a path is empty if and only if the path
    is empty. *)
Theorem sanitize_empty_iff (p : gostring) : sanitize p = [] <-> p = [].
Proof.
  split; [|intros ->; reflexivity].
  destruct (string_eqb (strings.TrimSpace p) []) eqn:E.
  - rewrite sanitize_blank by exact E. auto.
  - rewrite sanitize_clean by exact E. intros H. exfalso.
    apply (CleanProofs.Clean_nonempty (converted p)).
    destruct (strings.HasSuffix (converted p) (str "/")); [|exact H].
    apply app_eq_nil in H. apply H.
Qed.

(** X3: backslashes and forward slashes are the same separator to the
    normalizer: a path and the same path with every backslash turned into
    a forward slash have the same normalized form. *)
Theorem sanitize_separator_insensitive (p : gostring) :
  sanitize (strings.ReplaceAll p backslash slash) = sanitize p.
Proof.
  destruct (string_eqb (strings.TrimSpace p) []) eqn:E.
  - rewrite blank_no_backslash by exact E. reflexivity.
  - rewrite (sanitize_clean p E).
    rewrite sanitize_clean by (rewrite blank_ReplaceAll; exact E).
    rewrite converted_ReplaceAll. reflexivity.
Qed.

Lemma blank_not_dots (p : gostring) :
  string_eqb (strings.TrimSpace p) [] = true ->
  p <> [dot] /\ p <> CleanSpec.dotdot_elem.
Proof.
  intros E. apply string_eqb_eq, TrimSpace_empty_bytes in E.
  assert (~ space_byte dot) as Hd.
  { intros [H | H]; [discriminate | cbn in H; lia]. }
  split; intros ->; inversion E; subst; contradiction.
Qed.

(** A blank name that is not empty is one clean element. *)
Lemma Clean_blank (p : gostring) :
  p <> [] -> string_eqb (strings.TrimSpace p) [] = true -> path.Clean p = p.
Proof.
  intros Hne E. destruct (blank_not_dots p E) as [Hd Hdd].
  apply CleanMore.Clean_one_elem; try assumption.
  apply string_eqb_eq, TrimSpace_empty_bytes in E.
  eapply Forall_impl; [|exact E]. apply space_byte_not_slash.
Qed.

Lemma HasSuffix_blank (p : gostring) :
  string_eqb (strings.TrimSpace p) [] = true ->
  strings.HasSuffix p (str "/") = false.
Proof.
  intros E. destruct (strings.HasSuffix p (str "/")) eqn:H; [|reflexivity].
  exfalso. apply HasSuffix_slash_inv in H. destruct H as [s' ->].
  apply (blank_no_slash _ E). apply in_or_app. right. left. reflexivity.
Qed.

(** The normalized form of a name that is not empty, in the terms of its
    converted form, blank or not. *)
Lemma sanitize_converted (p : gostring) :
  p <> [] ->
  sanitize p
  = if strings.HasSuffix (converted p) (str "/")
    then path.Clean (converted p) ++ str "/"
    else path.Clean (converted p).
Proof.
  intros Hne. destruct (string_eqb (strings.TrimSpace p) []) eqn:E.
  - rewrite sanitize_blank, converted_blank by exact E.
    rewrite HasSuffix_blank by exact E. symmetry. apply Clean_blank; assumption.
  - apply sanitize_clean. exact E.
Qed.

(** X4: a volume prefix is dropped: a letter and a colon in front of a
    name that is not empty and has no volume prefix of its own do not
    change the normalized form. *)
Theorem sanitize_drops_volume (c : ascii) (p : gostring) :
  is_alpha c = true -> p <> [] -> volumePrefixRegex_MatchString p = false ->
  sanitize (c :: colon :: p) = sanitize p.
Proof.
  intros Hc Hne Hm.
  rewrite (sanitize_converted p Hne), sanitize_converted by discriminate.
  assert (converted (c :: colon :: p) = converted p) as ->; [|reflexivity].
  unfold converted, volumePrefixRegex_strip. rewrite Hm.
  cbn [volumePrefixRegex_MatchString]. rewrite Hc. reflexivity.
Qed.

Lemma sanitize_drops_volume_witness :
  is_alpha "C"%char = true
  /\ volumePrefixRegex_MatchString (str "\photos\a.jpg") = false
  /\ sanitize ("C"%char :: colon :: str "\photos\a.jpg") = str "/photos/a.jpg"
  /\ sanitize ("C"%char :: colon :: str "\photos\a.jpg")
     = sanitize (str "\photos\a.jpg").
Proof.
  split; [reflexivity|]. split; [reflexivity|]. split; [reflexivity|].
  apply sanitize_drops_volume; [reflexivity | discriminate | reflexivity].
Defined.

(** X5: the normalized form of a name that is not empty is lexically
    clean, up to the one separator that may follow it: it is its own
    cleaned form, or its own cleaned form with one separator appended. *)
Theorem sanitize_clean_form (p : gostring) :
  p <> [] ->
  sanitize p = path.Clean (sanitize p)
  \/ sanitize p = path.Clean (sanitize p) ++ str "/".
Proof.
  intros Hne. rewrite Clean_sanitize, (sanitize_converted p Hne).
  destruct (strings.HasSuffix (converted p) (str "/")); auto.
Qed.

Lemma sanitize_clean_form_witness :
  str "a\.\b\..\c/" <> []
  /\ sanitize (str "a\.\b\..\c/") = str "a/c/"
  /\ (sanitize (str "a\.\b\..\c/") = path.Clean (sanitize (str "a\.\b\..\c/"))
      \/ sanitize (str "a\.\b\..\c/")
         = path.Clean (sanitize (str "a\.\b\..\c/")) ++ str "/").
Proof.
  split; [discriminate|]. split; [reflexivity|].
  apply sanitize_clean_form. discriminate.
Defined.

(** X22: the normalizer keeps a rooted path rooted and a relative path
    relative: the normalized form of a name that is not empty starts with
    a separator if and only if the name does, once its volume prefix is
    stripped and its backslashes are turned into forward slashes. *)
Theorem sanitize_keeps_root (p : gostring) :
  p <> [] ->
  strings.HasPrefix (sanitize p) (str "/")
  = strings.HasPrefix
      (strings.ReplaceAll (volumePrefixRegex_strip p) backslash slash)
      (str "/").
Proof.
  intros Hne. fold (converted p). rewrite (sanitize_converted p Hne).
  rewrite <- (CleanMore.Clean_rooted (converted p)).
  destruct (strings.HasSuffix (converted p) (str "/")); [|reflexivity].
  rewrite !HasPrefix_slash.
  pose proof (CleanProofs.Clean_nonempty (converted p)) as Hc.
  destruct (path.Clean (converted p)); [congruence | reflexivity].
Qed.

Lemma sanitize_keeps_root_witness :
  str "C:\srv\.\data" <> []
  /\ sanitize (str "C:\srv\.\data") = str "/srv/data"
  /\ strings.HasPrefix (sanitize (str "C:\srv\.\data")) (str "/") = true
  /\ strings.HasPrefix (sanitize (str "srv\data")) (str "/") = false.
Proof.
  split; [discriminate|]. split; [reflexivity|]. split.
  - rewrite sanitize_keeps_root by discriminate. reflexivity.
  - rewrite sanitize_keeps_root by discriminate. reflexivity.
Defined.

(** ** The property applicators *)

(** X6: applying a property set to a request a second time changes
    nothing, a field that was set stays set, and bucket, key and body are
    never touched; this holds for creation requests and for upload
    requests, on which the two applicators do the same. *)
Theorem applyFileProps_idempotent (req : PutObjectInput)
    (p : UploadedFileProperties) :
  let req' := applyFileCreateProps req p in
  let up' := applyFileWriteProps (upload_of_put req) p in
  applyFileCreateProps req' p = req'
  /\ applyFileWriteProps up' p = up'
  /\ up' = upload_of_put req'
  /\ (put_ACL req <> None -> put_ACL req' <> None)
  /\ (put_CacheControl req <> None -> put_CacheControl req' <> None)
  /\ (put_ContentType req <> None -> put_ContentType req' <> None)
  /\ (put_ContentEncoding req <> None -> put_ContentEncoding req' <> None)
  /\ put_Bucket req' = put_Bucket req
  /\ put_Key req' = put_Key req
  /\ put_Body req' = put_Body req.
Proof.
  destruct p as [a c t e], req as [b k bd ra rc rt re].
  unfold applyFileCreateProps, applyFileWriteProps, upload_of_put. cbn.
  repeat split; destruct a, c, t, e; cbn; congruence.
Qed.

(** ** Stat *)

(** X7: the listing of the directory fallback asks for one key at most,
    in the bucket of the handle, under a prefix that never starts with a
    separator. *)
Theorem statDirectory_prefix (fs : Fs) (name : gostring) :
  exists rq,
    first_request (statDirectory fs name) = Some (ListObjectsV2 rq)
    /\ list_Bucket rq = Bucket fs
    /\ list_MaxKeys rq = 1%Z
    /\ strings.HasPrefix (list_Prefix rq) (str "/") = false.
Proof.
  eexists. split; [reflexivity|]. cbn [list_Bucket list_MaxKeys list_Prefix].
  repeat split. unfold strings.TrimPrefix. rewrite !HasPrefix_slash.
  destruct (path.Clean name) as [|c r] eqn:E; [reflexivity|].
  destruct (is_slash c) eqn:Hc; [|rewrite Hc; reflexivity].
  cbn [skipn length str String.list_ascii_of_string].
  destruct r as [|c' r']; [reflexivity|].
  apply is_slash_true in Hc. subst c.
  eapply CleanMore.Clean_second_byte. exact E.
Qed.

(** X8: when [Stat] returns no error it returns a record.  Either the
    point lookup succeeded, no other call was made and the record is that
    of a file (with the size and the time of the lookup, unless the key
    ends in a separator); or the lookup was answered 404, the second and
    last call was the listing of [statDirectory] (one key at most, in the
    bucket of the handle, under the cleaned key without its leading
    separator), the listing was answered with a key count other than
    zero, or the key is empty, and the record is that of a directory, of
    size 0, dated at the epoch. *)
Theorem Stat_success_record (S : Type) (h : handler S) (s s' : S) (fs : Fs)
    (name : gostring) (info : option FileInfo) (tr : list Event) :
  run h (Stat fs name) s = (info, None, s', tr) ->
  let key := Fs_sanitize fs name in
  let head := HeadObject {| head_Bucket := Bucket fs; head_Key := key |} in
  let listing :=
    ListObjectsV2
      {| list_Bucket := Bucket fs;
         list_Prefix := strings.TrimPrefix (path.Clean key) (str "/");
         list_MaxKeys := 1 |} in
  (exists out,
      tr = [mkEvent head (inl out)]
      /\ info
         = Some (if strings.HasSuffix key (str "/")
                 then NewFileInfo key false 0 time_zero
                 else NewFileInfo (path.Base key) false (ContentLength out)
                        (LastModified out)))
  \/ (exists e out,
         tr = [mkEvent head (inr e); mkEvent listing (inl out)]
         /\ is_404 e = true
         /\ (KeyCount out <> 0%Z \/ key = [])
         /\ info = Some (NewFileInfo (path.Base key) true 0 (time_Unix 0 0))).
Proof.
  cbn zeta. unfold Stat. cbn [bind call run].
  destruct (h _ s) as [r s1]. destruct r as [out | e].
  - destruct (strings.HasSuffix (Fs_sanitize fs name) (str "/"));
      cbn [run]; intros E; injection E as <- <- <-; left; exists out; auto.
  - destruct (is_404 e) eqn:E404.
    + unfold statDirectory. cbn [bind call run].
      destruct (h _ s1) as [r2 s2]. destruct r2 as [out | e2].
      * destruct ((KeyCount out =? 0)%Z
                  && negb (string_eqb (Fs_sanitize fs name) [])) eqn:Ek;
          cbn [run]; [discriminate|].
        intros E; injection E as <- <- <-.
        right. exists e, out. repeat split; [exact E404|].
        apply andb_false_iff in Ek. destruct Ek as [Ek | Ek].
        -- left. apply Z.eqb_neq. exact Ek.
        -- right. apply negb_false_iff, string_eqb_eq in Ek. exact Ek.
      * cbn [run]. discriminate.
    + cbn [run]. discriminate.
Qed.

Lemma Stat_success_record_witness :
  let fs := NewFs (str "bucket") in
  let out := {| ContentLength := 42; LastModified := time_Unix 1700000000 0 |} in
  let head := HeadObject {| head_Bucket := str "bucket";
                            head_Key := str "/docs/2024" |} in
  let listing := ListObjectsV2 {| list_Bucket := str "bucket";
                                  list_Prefix := str "docs/2024";
                                  list_MaxKeys := 1 |} in
  let found := {| KeyCount := 1 |} in
  let info := Some (NewFileInfo (str "2024") true 0 (time_Unix 0 0)) in
  let tr := [mkEvent head (inr not_found_404); mkEvent listing (inl found)] in
  run (canned (inr not_found_404) (inl found) []) (Stat fs (str "C:\docs\2024"))
    tt
  = (info, None, tt, tr)
  /\ ((exists out',
         tr = [mkEvent head (inl out')]
         /\ info
            = Some (NewFileInfo (path.Base (str "/docs/2024")) false
                      (ContentLength out') (LastModified out')))
      \/ (exists e out',
             tr = [mkEvent head (inr e); mkEvent listing (inl out')]
             /\ is_404 e = true
             /\ (KeyCount out' <> 0%Z \/ str "/docs/2024" = [])
             /\ info
                = Some (NewFileInfo (path.Base (str "/docs/2024")) true 0
                          (time_Unix 0 0)))).
Proof.
  cbv zeta. split; [reflexivity|].
  exact (Stat_success_record unit
           (canned (inr not_found_404) (inl {| KeyCount := 1 |}) [])
           tt tt (NewFs (str "bucket")) (str "C:\docs\2024") _ _ eq_refl).
Defined.

(** X9: every error of [Stat] is a path error of the operation ["stat"]
    on the normalized name.  What it wraps is the not-found error, and
    then no record comes with it, or it is the error the last call was
    answered with, unchanged. *)
Theorem Stat_error_shape (S : Type) (h : handler S) (s s' : S) (fs : Fs)
    (name : gostring) (info : option FileInfo) (err : error)
    (tr : list Event) :
  run h (Stat fs name) s = (info, Some err, s', tr) ->
  exists inner,
    err = PathError (str "stat") (Fs_sanitize fs name) inner
    /\ ((inner = ErrNotExist /\ info = None)
        \/ (exists tr0 ev,
               tr = tr0 ++ [ev] /\ event_error ev = Some inner
               /\ info = Some FileInfo_zero)).
Proof.
  unfold Stat. cbn [bind call run].
  destruct (h _ s) as [r s1]. destruct r as [out | e].
  - destruct (strings.HasSuffix (Fs_sanitize fs name) (str "/"));
      cbn [run]; discriminate.
  - destruct (is_404 e) eqn:E404.
    + unfold statDirectory. cbn [bind call run].
      destruct (h _ s1) as [r2 s2]. destruct r2 as [out | e2].
      * destruct ((KeyCount out =? 0)%Z
                  && negb (string_eqb (Fs_sanitize fs name) []));
          cbn [run]; [|discriminate].
        intros E. injection E as <- <- <- <-.
        eexists. split; [reflexivity|]. left. auto.
      * cbn [run]. intros E. injection E as <- <- <- <-.
        eexists. split; [reflexivity|]. right.
        eexists [_], _. repeat split.
    + cbn [run]. intros E. injection E as <- <- <- <-.
      eexists. split; [reflexivity|]. right.
      eexists [], _. repeat split.
Qed.

Lemma Stat_error_shape_witness :
  let fs := NewFs (str "bucket") in
  let denied := AwsRequestFailure (str "AccessDenied") (str "Forbidden") 403
                  (str "req-2") in
  let err := PathError (str "stat") (str "a.txt") (SdkError denied) in
  run (canned (inr denied) (inr denied) []) (Stat fs (str "./a.txt")) tt
  = (Some FileInfo_zero, Some err, tt,
     [mkEvent (HeadObject {| head_Bucket := str "bucket";
                             head_Key := str "a.txt" |}) (inr denied)])
  /\ exists inner,
       err = PathError (str "stat") (Fs_sanitize fs (str "./a.txt")) inner.
Proof.
  cbv zeta. split; [reflexivity|].
  destruct (Stat_error_shape unit
              (canned (inr (AwsRequestFailure (str "AccessDenied")
                              (str "Forbidden") 403 (str "req-2")))
                 (inr (AwsRequestFailure (str "AccessDenied")
                         (str "Forbidden") 403 (str "req-2"))) [])
              tt tt (NewFs (str "bucket")) (str "./a.txt") _ _ _ eq_refl)
    as (inner & E & _).
  exists inner. exact E.
Defined.

(** X10: [Stat] only reads.  It makes the point lookup on the normalized
    name, and after it one listing at most, which it makes only when the
    lookup was answered 404. *)
Theorem Stat_reads_only (S : Type) (h : handler S) (s : S) (fs : Fs)
    (name : gostring) :
  let key := Fs_sanitize fs name in
  let head := HeadObject {| head_Bucket := Bucket fs; head_Key := key |} in
  let listing :=
    ListObjectsV2 {| list_Bucket := Bucket fs;
                     list_Prefix := strings.TrimPrefix (path.Clean key) (str "/");
                     list_MaxKeys := 1 |} in
  let tr := snd (run h (Stat fs name) s) in
  (exists x, tr = [mkEvent head x]
             /\ forall e, x = inr e -> is_404 e = false)
  \/ (exists e y, tr = [mkEvent head (inr e); mkEvent listing y]
                  /\ is_404 e = true).
Proof.
  cbn zeta. unfold Stat. cbn [bind call run].
  destruct (h _ s) as [r s1]. destruct r as [out | e].
  - left. exists (inl out).
    destruct (strings.HasSuffix (Fs_sanitize fs name) (str "/"));
      cbn [run snd]; (split; [reflexivity|]); intros; discriminate.
  - destruct (is_404 e) eqn:E404.
    + right. unfold statDirectory. cbn [bind call run].
      destruct (h _ s1) as [r2 s2]. exists e, r2.
      destruct r2 as [out | e2];
        [destruct ((KeyCount out =? 0)%Z
                   && negb (string_eqb (Fs_sanitize fs name) []))|];
        cbn [run snd]; auto.
    + left. exists (inr e). cbn [run snd]. split; [reflexivity|].
      intros e' E. injection E as <-. exact E404.
Qed.

(** ** Remove *)

Lemma Stat_no_delete {S : Type} (h : handler S) (s : S) (fs : Fs)
    (name : gostring) :
  Forall (fun r => is_DeleteObject r = false)
    (requests (snd (run h (Stat fs name) s))).
Proof.
  unfold Stat. cbn [bind call run].
  destruct (h _ s) as [r s1]. destruct r as [out | e].
  - destruct (strings.HasSuffix (Fs_sanitize fs name) (str "/"));
      cbn [run snd requests map ev_req]; repeat constructor.
  - destruct (is_404 e).
    + unfold statDirectory. cbn [bind call run].
      destruct (h _ s1) as [r2 s2].
      destruct r2 as [out | e2];
        [destruct ((KeyCount out =? 0)%Z
                   && negb (string_eqb (Fs_sanitize fs name) []))|];
        cbn [run snd requests map ev_req]; repeat constructor.
    + cbn [run snd requests map ev_req]. repeat constructor.
Qed.

(** X11: [Remove] deletes only what [Stat] found.  When [Stat] on the
    normalized name returns an error, [Remove] returns that error and has
    made the calls of [Stat] and no deletion; otherwise it makes one
    deletion, last, of the normalized name, and returns what the deletion
    was answered.  A not-found result therefore means that nothing was
    deleted. *)
Theorem Remove_deletes_after_Stat (S : Type) (h : handler S) (s s' : S)
    (fs : Fs) (name : gostring) (err : option error) (tr : list Event) :
  run h (Remove fs name) s = (err, s', tr) ->
  let key := Fs_sanitize fs name in
  let del := DeleteObject {| del_Bucket := Bucket fs; del_Key := key |} in
  ((exists info e,
       run h (Stat fs key) s = (info, Some e, s', tr) /\ err = Some e
       /\ Forall (fun r => is_DeleteObject r = false) (requests tr))
   \/ (exists info s1 tr1 d,
          run h (Stat fs key) s = (info, None, s1, tr1)
          /\ tr = tr1 ++ [mkEvent del d] /\ err = sdk_err d
          /\ Forall (fun r => is_DeleteObject r = false) (requests tr1)))
  /\ (is_not_found err = true ->
      Forall (fun r => is_DeleteObject r = false) (requests tr)).
Proof.
  cbn zeta. unfold Remove. rewrite run_bind.
  pose proof (Stat_no_delete h s fs (Fs_sanitize fs name)) as Hnd.
  destruct (run h (Stat fs (Fs_sanitize fs name)) s) as [[[info e] s1] tr1].
  cbn [snd] in Hnd. destruct e as [e|].
  - cbn [run]. intros E. injection E as <- <- <-. rewrite app_nil_r.
    split; [left; exists info, e; auto | intros _; exact Hnd].
  - rewrite run_forceRemove. cbv zeta.
    destruct (h (DeleteObject {| del_Bucket := Bucket fs;
                                 del_Key := Fs_sanitize fs name |}) s1)
      as [d s2].
    cbn [fst snd]. intros E. injection E as <- <- <-.
    split.
    + right. exists info, s1, tr1, d. auto.
    + destruct d; discriminate.
Qed.

Lemma Remove_deletes_after_Stat_witness :
  let fs := NewFs (str "bucket") in
  let h := canned (inr not_found_404) (inl {| KeyCount := 0 |}) [] in
  let tr := [ mkEvent (HeadObject {| head_Bucket := str "bucket";
                                     head_Key := str "gone.txt" |})
                (inr not_found_404);
              mkEvent (ListObjectsV2 {| list_Bucket := str "bucket";
                                        list_Prefix := str "gone.txt";
                                        list_MaxKeys := 1 |})
                (inl {| KeyCount := 0 |}) ] in
  let err := Some (PathError (str "stat") (str "gone.txt") ErrNotExist) in
  run h (Remove fs (str "gone.txt")) tt = (err, tt, tr)
  /\ is_not_found err = true
  /\ Forall (fun r => is_DeleteObject r = false) (requests tr).
Proof.
  cbv zeta. split; [reflexivity|]. split; [reflexivity|].
  apply (Remove_deletes_after_Stat unit
           (canned (inr not_found_404) (inl {| KeyCount := 0 |}) [])
           tt tt (NewFs (str "bucket")) (str "gone.txt") _ _ eq_refl).
  reflexivity.
Defined.

(** ** OpenFile and Open *)

Lemma has_flag_false (flag bit : Z) :
  has_flag flag bit = false <-> Z.land flag bit = 0%Z.
Proof.
  unfold has_flag. rewrite negb_false_iff. apply Z.eqb_eq.
Qed.

Lemma has_flag_lor_WRONLY (flag : Z) :
  has_flag (Z.lor flag os.O_WRONLY) os.O_WRONLY = true.
Proof.
  apply has_flag_nonzero. rewrite Z.land_lor_distr_l.
  change (Z.land os.O_WRONLY os.O_WRONLY) with 1%Z.
  intros E. apply Z.lor_eq_0_iff in E. destruct E; discriminate.
Qed.

(** [OpenFile] with the write-only flag alone opens the write stream. *)
Lemma OpenFile_write_only (fs : Fs) (name : gostring) (perm : Z) :
  OpenFile fs name os.O_WRONLY perm
  = bind (call (openWriteStream (NewFile fs (Fs_sanitize fs name))))
      (fun err => Ret (Some (NewFile fs (Fs_sanitize fs name)), err)).
Proof. reflexivity. Qed.

(** X12: an open for writing or creation, without the read-write and
    append flags, makes one call: it opens the write stream of the handle
    on the normalized name.  It looks nothing up, and it returns the
    handle together with whatever the stream answered, an error
    included. *)
Theorem OpenFile_write (fs : Fs) (name : gostring) (flag perm : Z) :
  Z.land flag os.O_RDWR = 0%Z ->
  Z.land flag os.O_APPEND = 0%Z ->
  Z.land flag os.O_CREATE <> 0%Z \/ Z.land flag os.O_WRONLY <> 0%Z ->
  let file := NewFile fs (Fs_sanitize fs name) in
  OpenFile fs name flag perm
  = bind (call (openWriteStream file)) (fun err => Ret (Some file, err)).
Proof.
  intros H1 H2 H3 file. unfold OpenFile.
  apply has_flag_false in H1. apply has_flag_false in H2. rewrite H1, H2.
  destruct (has_flag flag os.O_CREATE) eqn:Ec.
  - rewrite has_flag_lor_WRONLY. reflexivity.
  - destruct H3 as [H3 | H3]; apply has_flag_nonzero in H3; [congruence|].
    rewrite H3. reflexivity.
Qed.

Lemma OpenFile_write_witness :
  let fs := NewFs (str "bucket") in
  let file := NewFile fs (str "logs/app.log") in
  Z.land os.O_CREATE os.O_RDWR = 0%Z
  /\ Z.land os.O_CREATE os.O_APPEND = 0%Z
  /\ Z.land os.O_CREATE os.O_CREATE <> 0%Z
  /\ OpenFile fs (str "logs\app.log") os.O_CREATE 420
     = bind (call (openWriteStream file)) (fun err => Ret (Some file, err)).
Proof.
  cbv zeta. split; [reflexivity|]. split; [reflexivity|].
  split; [discriminate|].
  apply (OpenFile_write (NewFs (str "bucket")) (str "logs\app.log")
           os.O_CREATE 420); [reflexivity | reflexivity | left; discriminate].
Defined.

(** X13: [OpenFile] never returns a nil handle with a nil error: without
    an error the handle on the normalized name comes back.  No handle
    comes back in two cases only: the flags are refused and no call was
    made, or the one call made was the lookup of the handle and it
    failed. *)
Theorem OpenFile_handle_or_error (S : Type) (h : handler S) (s s' : S)
    (fs : Fs) (name : gostring) (flag perm : Z) (file : option File)
    (err : option error) (tr : list Event) :
  run h (OpenFile fs name flag perm) s = (file, err, s', tr) ->
  let f := NewFile fs (Fs_sanitize fs name) in
  (err = None -> file = Some f)
  /\ (file = None ->
      (err = Some ErrNotSupported /\ tr = [])
      \/ (exists e, err = Some e /\ tr = [mkEvent (FileStat f) (inr e)])).
Proof.
  cbn zeta. unfold OpenFile.
  destruct (has_flag flag os.O_RDWR).
  { cbn [run]. intros E. injection E as <- <- <- <-.
    split; [discriminate | auto]. }
  destruct (has_flag flag os.O_APPEND).
  { cbn [run]. intros E. injection E as <- <- <- <-.
    split; [discriminate | auto]. }
  destruct (has_flag (if has_flag flag os.O_CREATE
                      then Z.lor flag os.O_WRONLY else flag) os.O_WRONLY).
  - cbn [bind call run]. destruct (h _ s) as [x s1]. cbn [run].
    intros E. injection E as <- <- <- <-. split; [auto | discriminate].
  - cbn [bind call run]. destruct (h _ s) as [x s1].
    destruct x as [info | e].
    + destruct (IsDir info).
      * cbn [run]. intros E. injection E as <- <- <- <-.
        split; [auto | discriminate].
      * cbn [bind call run]. destruct (h _ s1) as [y s2]. cbn [run].
        intros E. injection E as <- <- <- <-.
        split; [auto | discriminate].
    + cbn [run]. intros E. injection E as <- <- <- <-.
      split; [discriminate|]. intros _. right. exists e. auto.
Qed.

Lemma OpenFile_handle_or_error_witness :
  let fs := NewFs (str "bucket") in
  let h := canned (inr not_found_404) (inr not_found_404) [] in
  let f := NewFile fs (str "a/b.txt") in
  run h (OpenFile fs (str "a//b.txt") os.O_RDONLY 0) tt
  = (Some f, None, tt,
     [mkEvent (FileStat f) (inl FileInfo_zero);
      mkEvent (openReadStream f 0) None])
  /\ (@None error = None -> Some f = Some (NewFile fs (Fs_sanitize fs (str "a//b.txt")))).
Proof.
  cbv zeta. split; [reflexivity|].
  apply (OpenFile_handle_or_error unit
           (canned (inr not_found_404) (inr not_found_404) [])
           tt tt (NewFs (str "bucket")) (str "a//b.txt") os.O_RDONLY 0
           _ _ _ eq_refl).
Defined.

(** [OpenFile] with the read-only flag looks the handle up first. *)
Lemma OpenFile_read_only (fs : Fs) (name : gostring) (perm : Z) :
  OpenFile fs name os.O_RDONLY perm
  = bind (call (FileStat (NewFile fs (Fs_sanitize fs name))))
      (fun st =>
         match st with
         | inr err => Ret (None, Some err)
         | inl info =>
             if IsDir info
             then Ret (Some (NewFile fs (Fs_sanitize fs name)), None)
             else
               bind (call (openReadStream (NewFile fs (Fs_sanitize fs name)) 0))
                 (fun err => Ret (Some (NewFile fs (Fs_sanitize fs name)), err))
         end).
Proof. reflexivity. Qed.

(** X14: [Open] only reads.  Its first call is the lookup of the handle;
    when the lookup fails, [Open] returns that error and no handle; when
    it finds a directory, [Open] returns the handle and opens no stream;
    when it finds a file, [Open] opens the read stream at offset 0 and
    returns the handle with what the stream answered.  The handle is on
    the name normalized twice, once by [Open] and once by [OpenFile]. *)
Theorem Open_reads_only (S : Type) (h : handler S) (s : S) (fs : Fs)
    (name : gostring) :
  let f := NewFile fs (Fs_sanitize fs (Fs_sanitize fs name)) in
  let '(file, err, _, tr) := run h (Open fs name) s in
  match fst (h (FileStat f) s) with
  | inr e => file = None /\ err = Some e /\ requests tr = [FileStat f]
  | inl info =>
      file = Some f
      /\ if IsDir info
         then err = None /\ requests tr = [FileStat f]
         else requests tr = [FileStat f; openReadStream f 0]
              /\ exists tr0 ev, tr = tr0 ++ [ev] /\ event_error ev = err
  end.
Proof.
  cbn zeta. unfold Open. rewrite OpenFile_read_only.
  cbn [bind call run].
  destruct (h (FileStat _) s) as [x s1]. cbn [fst].
  destruct x as [info | e].
  - destruct (IsDir info).
    + cbn [run requests map ev_req]. repeat split.
    + cbn [bind call run]. destruct (h (openReadStream _ _) s1) as [y s2].
      cbn [run requests map ev_req].
      split; [reflexivity|]. split; [reflexivity|].
      eexists [_], _. split; reflexivity.
  - cbn [run requests map ev_req]. repeat split.
Qed.

(** ** Create *)

Section CreateMore.

Variable mime_TypeByExtension : gostring -> gostring.

(** X15: the request [Create] puts always carries a content type: the
    one of the default property set of the handle when it has one, and
    otherwise the type guessed from the extension of the name as given.
    Its body is empty and its bucket is the bucket of the handle. *)
Theorem Create_request_content_type (fs : Fs) (name : gostring) :
  let req := Create_request mime_TypeByExtension fs name in
  let guess := mime_TypeByExtension (filepath.Ext name) in
  put_ContentType req
  = Some match FileProps fs with
         | Some p => match ContentType p with Some v => v | None => guess end
         | None => guess
         end
  /\ put_Body req = [] /\ put_Bucket req = Bucket fs.
Proof.
  cbn zeta. unfold Create_request.
  destruct (FileProps fs) as [[a c [t|] e]|]; cbn; auto.
Qed.

(** X16: [Create] returns no error only after its three calls, the put,
    the opening of the write stream on the normalized name and the wait
    for the object, were all made and answered without error, and it then
    returns the handle.  When it returns an error, that error is what its
    last call was answered and no call follows it; and it returns no
    handle only when the put is the call that failed. *)
Theorem Create_calls (S : Type) (h : handler S) (s s' : S) (fs : Fs)
    (name : gostring) (file : option File) (err : option error)
    (tr : list Event) :
  run h (Create mime_TypeByExtension fs name) s = (file, err, s', tr) ->
  let f := NewFile fs (Fs_sanitize fs name) in
  let put := PutObject (Create_request mime_TypeByExtension fs name) in
  let wait :=
    WaitUntilObjectExists {| head_Bucket := Bucket fs; head_Key := name |} in
  (err = None ->
   file = Some f
   /\ tr = [mkEvent put None; mkEvent (openWriteStream f) None;
            mkEvent wait None])
  /\ faithful err tr
  /\ (file = None ->
      exists e, tr = [mkEvent put (Some e)] /\ err = Some (SdkError e)).
Proof.
  cbn zeta. unfold Create. cbn [bind call run].
  destruct (h _ s) as [x s1]. destruct x as [e|].
  { cbn [run]. intros E. injection E as <- <- <- <-.
    split; [discriminate|]. split; [|eauto].
    exists [], (mkEvent (PutObject (Create_request mime_TypeByExtension fs name))
                  (Some e)).
    repeat split. constructor. }
  rewrite OpenFile_write_only.
  cbn [bind call run]. destruct (h _ s1) as [y s2]. destruct y as [e|].
  { cbn [run]. intros E. injection E as <- <- <- <-.
    split; [discriminate|]. split; [|discriminate].
    eexists [_], _. repeat split. repeat constructor. }
  cbn [bind call run]. destruct (h _ s2) as [z s3]. cbn [run].
  intros E. injection E as <- <- <- <-.
  split; [|split; [|discriminate]].
  - destruct z; [discriminate|]. auto.
  - destruct z as [e|]; cbn [sdk_err faithful].
    + eexists [_; _], _. repeat split. repeat constructor.
    + repeat constructor.
Qed.

End CreateMore.

Lemma Create_calls_witness :
  let mime := fun _ : gostring => str "text/plain" in
  let fs := NewFs (str "bucket") in
  let h := canned (inr not_found_404) (inr not_found_404) [] in
  let f := NewFile fs (str "a.txt") in
  let tr :=
    [ mkEvent (PutObject (Create_request mime fs (str "a.txt"))) None;
      mkEvent (openWriteStream f) None;
      mkEvent (WaitUntilObjectExists {| head_Bucket := str "bucket";
                                        head_Key := str "a.txt" |}) None ] in
  run h (Create mime fs (str "a.txt")) tt = (Some f, None, tt, tr)
  /\ faithful None tr.
Proof.
  cbv zeta. split; [reflexivity|].
  apply (Create_calls (fun _ : gostring => str "text/plain") unit
           (canned (inr not_found_404) (inr not_found_404) [])
           tt tt (NewFs (str "bucket")) (str "a.txt") _ _ _ eq_refl).
Defined.


(** ** Rename *)

(** X17: [Rename] makes no call, or a copy alone when the copy fails, or
    a copy and then a deletion.  The deletion comes only after a copy
    that succeeded, and it deletes the key the copy read from, which is
    the normalized second argument; the error returned is that of the
    call that failed. *)
Theorem Rename_deletes_after_copy (S : Type) (h : handler S) (s s' : S)
    (fs : Fs) (oldname newname : gostring) (err : option error)
    (tr : list Event) :
  run h (Rename fs oldname newname) s = (err, s', tr) ->
  let key := Fs_sanitize fs newname in
  let copy :=
    CopyObject {| copy_Bucket := Bucket fs;
                  copy_CopySource := Bucket fs ++ key;
                  copy_Key := Fs_sanitize fs key |} in
  let del := DeleteObject {| del_Bucket := Bucket fs; del_Key := key |} in
  (tr = [] /\ err = None /\ Fs_sanitize fs key = key)
  \/ (exists e, tr = [mkEvent copy (Some e)] /\ err = Some (SdkError e))
  \/ (exists d, tr = [mkEvent copy None; mkEvent del d] /\ err = sdk_err d).
Proof.
  cbn zeta. unfold Rename.
  destruct (string_eqb (Fs_sanitize fs newname)
              (Fs_sanitize fs (Fs_sanitize fs newname))) eqn:E.
  - apply string_eqb_eq in E. cbn [run]. intros H. injection H as <- <- <-.
    left. auto.
  - cbn [bind call run]. destruct (h _ s) as [x s1]. destruct x as [e|].
    + cbn [run]. intros H. injection H as <- <- <-. right. left. eauto.
    + cbn [bind call run]. destruct (h _ s1) as [d s2]. cbn [run].
      intros H. injection H as <- <- <-. right. right. eauto.
Qed.

Lemma Rename_deletes_after_copy_witness :
  let fs := NewFs (str "bucket") in
  let h := canned (inr not_found_404) (inr not_found_404) [] in
  run h (Rename fs (str "old.txt") (str "new.txt")) tt = (None, tt, [])
  /\ Fs_sanitize fs (Fs_sanitize fs (str "new.txt"))
     = Fs_sanitize fs (str "new.txt").
Proof.
  cbv zeta. split; [reflexivity|].
  destruct (Rename_deletes_after_copy unit
              (canned (inr not_found_404) (inr not_found_404) [])
              tt tt (NewFs (str "bucket")) (str "old.txt") (str "new.txt")
              _ _ eq_refl) as [(_ & _ & E) | [(e & E & _) | (d & E & _)]];
    [exact E | discriminate E | discriminate E].
Defined.

(** ** Mkdir *)

(** X18: [Mkdir] opens the write stream of the marker and, when that
    went well, closes the handle, which is what writes the marker; its
    result is the error of the opening, or else what the close answered.
    When the opening fails the handle is not closed. *)
Theorem Mkdir_opens_then_closes (S : Type) (h : handler S) (s s' : S)
    (fs : Fs) (name : gostring) (perm : Z) (err : option error)
    (tr : list Event) :
  run h (Mkdir fs name perm) s = (err, s', tr) ->
  let f :=
    NewFile fs (Fs_sanitize fs (path.Clean (Fs_sanitize fs name) ++ str "/")) in
  (exists e, tr = [mkEvent (openWriteStream f) (Some e)] /\ err = Some e)
  \/ (exists c, tr = [mkEvent (openWriteStream f) None; mkEvent (Close f) c]
                /\ err = c).
Proof.
  cbn zeta. unfold Mkdir. rewrite OpenFile_create.
  cbn [bind call run]. destruct (h (openWriteStream _) s) as [x s1].
  destruct x as [e|].
  - cbn [run]. intros E. injection E as <- <- <-. left. eauto.
  - cbn [bind call run]. destruct (h (Close _) s1) as [c s2]. cbn [run].
    intros E. injection E as <- <- <-. right. eauto.
Qed.

Lemma Mkdir_opens_then_closes_witness :
  let fs := NewFs (str "bucket") in
  let h := canned (inr not_found_404) (inr not_found_404) [] in
  let f := NewFile fs (str "photos/") in
  run h (Mkdir fs (str "photos") 493) tt
  = (None, tt, [mkEvent (openWriteStream f) None; mkEvent (Close f) None])
  /\ ((exists e, [mkEvent (openWriteStream f) None; mkEvent (Close f) None]
                 = [mkEvent (openWriteStream f) (Some e)] /\ None = Some e)
      \/ (exists c, [mkEvent (openWriteStream f) None; mkEvent (Close f) None]
                    = [mkEvent (openWriteStream f) None; mkEvent (Close f) c]
                    /\ None = c)).
Proof.
  cbv zeta. split; [reflexivity|].
  exact (Mkdir_opens_then_closes unit
           (canned (inr not_found_404) (inr not_found_404) [])
           tt tt (NewFs (str "bucket")) (str "photos") 493 _ _ eq_refl).
Defined.

(** ** RemoveAll *)

Lemma requests_app (tr1 tr2 : list Event) :
  requests (tr1 ++ tr2) = requests tr1 ++ requests tr2.
Proof. apply map_app. Qed.

Lemma walk_request_delete (fs : Fs) (key : gostring) :
  walk_request (Bucket fs)
    (DeleteObject {| del_Bucket := Bucket fs; del_Key := key |}) = true.
Proof. apply string_eqb_refl. Qed.

Lemma RemoveAll_range_requests {T : Type} (h : handler T)
    (rec : gostring -> Prog (option (option error))) (fs : Fs) (s3dir : File)
    (fis : list FileInfo) :
  (forall p s,
      Forall (fun r => walk_request (Bucket fs) r = true)
        (requests (snd (run h (rec p) s)))) ->
  forall s,
    Forall (fun r => walk_request (Bucket fs) r = true)
      (requests (snd (run h (RemoveAll_range rec fs s3dir fis) s))).
Proof.
  intros Hrec. induction fis as [|fi fis IH]; intros s.
  - cbn [RemoveAll_range]. rewrite run_bind, run_forceRemove. cbn [run snd].
    rewrite requests_app. apply Forall_app. split; [|constructor].
    repeat constructor. apply walk_request_delete.
  - cbn [RemoveAll_range]. destruct (IsDir fi).
    + rewrite run_bind. specialize (Hrec (path.Join (Name s3dir) (fi_name fi)) s).
      destruct (run h (rec (path.Join (Name s3dir) (fi_name fi))) s)
        as [[r0 s1] tr1].
      cbn [snd] in Hrec.
      assert (forall p : Prog (option (option error)),
                 Forall (fun r => walk_request (Bucket fs) r = true)
                   (requests (snd (run h p s1))) ->
                 Forall (fun r => walk_request (Bucket fs) r = true)
                   (requests (snd (let '(b, s2, tr2) := run h p s1 in
                                   (b, s2, tr1 ++ tr2))))) as Happ.
      { intros p Hp. destruct (run h p s1) as [[b s2] tr2]. cbn [snd] in *.
        rewrite requests_app. apply Forall_app. auto. }
      apply Happ. destruct r0 as [[e|]|]; [constructor | apply IH | constructor].
    + rewrite run_bind, run_forceRemove. cbv zeta.
      destruct (h _ s) as [d s1]. cbn [fst snd].
      assert (forall p : Prog (option (option error)),
                 Forall (fun r => walk_request (Bucket fs) r = true)
                   (requests (snd (run h p s1))) ->
                 Forall (fun r => walk_request (Bucket fs) r = true)
                   (requests
                      (snd (let '(b, s2, tr2) := run h p s1 in
                            (b, s2,
                             [mkEvent
                                (DeleteObject
                                   {| del_Bucket := Bucket fs;
                                      del_Key :=
                                        path.Join (Name s3dir) (fi_name fi) |})
                                d] ++ tr2))))) as Happ.
      { intros p Hp. destruct (run h p s1) as [[b s2] tr2]. cbn [snd] in *.
        rewrite requests_app. apply Forall_app. split; [|exact Hp].
        repeat constructor. apply walk_request_delete. }
      apply Happ. destruct (sdk_err d); [constructor | apply IH].
Qed.

(** X19: whatever the store answers, and however deep the walk goes,
    [RemoveAll] makes two kinds of calls only: listings of directory
    handles, and deletions, and every deletion is in the bucket of the
    handle. *)
Theorem RemoveAll_lists_and_deletes (T : Type) (h : handler T) (fs : Fs)
    (fuel : nat) (name : gostring) (s : T) :
  Forall (fun r => walk_request (Bucket fs) r = true)
    (requests (snd (run h (RemoveAll fuel fs name) s))).
Proof.
  revert name s. induction fuel as [|fuel IH]; intros name s; [constructor|].
  rewrite RemoveAll_S. cbn [bind call run].
  destruct (h (Readdir _ _) s) as [x s1].
  assert (forall p : Prog (option (option error)),
             Forall (fun r => walk_request (Bucket fs) r = true)
               (requests (snd (run h p s1))) ->
             Forall (fun r => walk_request (Bucket fs) r = true)
               (requests
                  (snd (let '(a, s2, tr) := run h p s1 in
                        (a, s2,
                         mkEvent (Readdir (NewFile fs (Fs_sanitize fs name)) 0)
                           x :: tr))))) as Hcons.
  { intros p Hp. destruct (run h p s1) as [[b s2] tr2]. cbn [snd] in *.
    constructor; [reflexivity | exact Hp]. }
  apply Hcons. destruct x as [fis | err]; [|constructor].
  apply RemoveAll_range_requests. intros p s0. apply IH.
Qed.

Lemma faithful_app (err : option error) (tr1 tr2 : list Event) :
  Forall (fun ev => event_error ev = None) tr1 ->
  faithful err tr2 -> faithful err (tr1 ++ tr2).
Proof.
  intros H1 H2. destruct err as [e|]; cbn [faithful] in *.
  - destruct H2 as (tr0 & ev & -> & He & H0).
    exists (tr1 ++ tr0), ev. rewrite app_assoc.
    repeat split; [exact He | apply Forall_app; auto].
  - apply Forall_app. auto.
Qed.

Lemma faithful_last (e : error) (tr : list Event) :
  faithful (Some e) tr -> faithful (Some e) (tr ++ []).
Proof. rewrite app_nil_r. auto. Qed.

Lemma RemoveAll_range_faithful {T : Type} (h : handler T)
    (rec : gostring -> Prog (option (option error))) (fs : Fs) (s3dir : File)
    (fis : list FileInfo) :
  (forall p s r s' tr, run h (rec p) s = (Some r, s', tr) -> faithful r tr) ->
  forall s r s' tr,
    run h (RemoveAll_range rec fs s3dir fis) s = (Some r, s', tr) ->
    faithful r tr.
Proof.
  intros Hrec. induction fis as [|fi fis IH]; intros s r s' tr E.
  - cbn [RemoveAll_range] in E. rewrite run_bind, run_forceRemove in E.
    cbv zeta in E. destruct (h _ s) as [d s1]. cbn [fst snd run] in E.
    injection E as <- <- <-. destruct d as [e|]; cbn [sdk_err faithful].
    + eexists [], _. repeat split. constructor.
    + repeat constructor.
  - cbn [RemoveAll_range] in E. destruct (IsDir fi).
    + rewrite run_bind in E.
      destruct (run h (rec (path.Join (Name s3dir) (fi_name fi))) s)
        as [[r0 s1] tr1] eqn:E1.
      destruct r0 as [[e|]|].
      * cbn [run] in E. injection E as <- <- <-.
        apply faithful_last. eapply Hrec. exact E1.
      * destruct (run h (RemoveAll_range rec fs s3dir fis) s1)
          as [[b s2] tr2] eqn:E2.
        injection E as -> <- <-.
        apply faithful_app; [apply (Hrec _ _ _ _ _ E1) | eapply IH; exact E2].
      * cbn [run] in E. discriminate.
    + rewrite run_bind, run_forceRemove in E. cbv zeta in E.
      destruct (h _ s) as [d s1]. cbn [fst snd] in E.
      destruct d as [e|]; cbn [sdk_err] in E.
      * cbn [run] in E. injection E as <- <- <-.
        eexists [], _. repeat split. constructor.
      * destruct (run h (RemoveAll_range rec fs s3dir fis) s1)
          as [[b s2] tr2] eqn:E2.
        injection E as -> <- <-.
        apply (faithful_app r [_] tr2);
          [repeat constructor | eapply IH; exact E2].
Qed.

(** X20: [RemoveAll] swallows no error and stops at the first one.  When
    it returns without an error, every call of the walk was answered
    without error; when it returns an error, that error is what its last
    call, a listing or a deletion, was answered, every call before went
    well, and no call was made after it. *)
Theorem RemoveAll_stops_at_first_error (T : Type) (h : handler T) (fs : Fs)
    (fuel : nat) (name : gostring) (s s' : T) (err : option error)
    (tr : list Event) :
  run h (RemoveAll fuel fs name) s = (Some err, s', tr) -> faithful err tr.
Proof.
  revert name s s' err tr.
  induction fuel as [|fuel IH]; intros name s s' err tr E; [discriminate|].
  rewrite RemoveAll_S in E. cbn [bind call run] in E.
  destruct (h (Readdir _ _) s) as [x s1]. destruct x as [fis | e].
  - destruct (run h (RemoveAll_range (RemoveAll fuel fs) fs _ fis) s1)
      as [[b s2] tr2] eqn:E2.
    injection E as -> <- <-.
    apply (faithful_app err [_] tr2); [repeat constructor|].
    eapply RemoveAll_range_faithful; [|exact E2].
    intros p s0 r s0' tr0 H. eapply IH. exact H.
  - cbn [run] in E. injection E as <- <- <-.
    eexists [], _. repeat split. constructor.
Qed.

Lemma RemoveAll_stops_at_first_error_witness :
  let fs := NewFs (str "bucket") in
  let h := canned (inr not_found_404) (inr not_found_404)
             [NewFileInfo (str "a.txt") false 3 (time_Unix 0 0)] in
  let tr :=
    [ mkEvent (Readdir (NewFile fs (str "dir")) 0)
        (inl [NewFileInfo (str "a.txt") false 3 (time_Unix 0 0)]);
      mkEvent (DeleteObject {| del_Bucket := str "bucket";
                               del_Key := str "dir/a.txt" |}) None;
      mkEvent (DeleteObject {| del_Bucket := str "bucket";
                               del_Key := str "dir/" |}) None ] in
  run h (RemoveAll 1 fs (str "dir")) tt = (Some None, tt, tr)
  /\ faithful None tr.
Proof.
  cbv zeta. split; [reflexivity|].
  apply (RemoveAll_stops_at_first_error unit
           (canned (inr not_found_404) (inr not_found_404)
              [NewFileInfo (str "a.txt") false 3 (time_Unix 0 0)])
           (NewFs (str "bucket")) 1 (str "dir") tt tt None _ eq_refl).
Defined.

Lemma readdir_event_inj (f : File) (n : Z) (x y : list FileInfo + error)
    (tr tr' : list Event) :
  mkEvent (Readdir f n) x :: tr = mkEvent (Readdir f n) y :: tr' ->
  x = y /\ tr = tr'.
Proof.
  intros E. split.
  - apply (f_equal (fun t => match t with
                             | ev :: _ => readdir_answer ev
                             | [] => None
                             end)) in E.
    cbn in E. injection E as E. exact E.
  - apply (f_equal (@tl Event)) in E. exact E.
Qed.

Lemma RemoveAll_range_flat {T : Type} (h : handler T)
    (rec : gostring -> Prog (option (option error))) (fs : Fs) (s3dir : File)
    (fis : list FileInfo) :
  Forall (fun fi => IsDir fi = false) fis ->
  forall s s' tr,
    run h (RemoveAll_range rec fs s3dir fis) s = (Some None, s', tr) ->
    requests tr
    = map (fun fi =>
             DeleteObject {| del_Bucket := Bucket fs;
                             del_Key := path.Join (Name s3dir) (fi_name fi) |})
        fis
      ++ [DeleteObject {| del_Bucket := Bucket fs;
                          del_Key := Name s3dir ++ str "/" |}].
Proof.
  induction 1 as [|fi fis Hfi Hfis IH]; intros s s' tr E.
  - cbn [RemoveAll_range] in E. rewrite run_bind, run_forceRemove in E.
    cbn [run] in E. injection E as _ _ <-. reflexivity.
  - cbn [RemoveAll_range] in E. rewrite Hfi in E.
    rewrite run_bind, run_forceRemove in E. cbv zeta in E.
    destruct (h _ s) as [d s1]. cbn [fst snd] in E.
    destruct d as [e|]; cbn [sdk_err] in E; [cbn [run] in E; discriminate|].
    destruct (run h (RemoveAll_range rec fs s3dir fis) s1)
      as [[b s2] tr2] eqn:E2.
    injection E as -> <- <-.
    cbn [map app]. rewrite <- (IH _ _ _ E2). reflexivity.
Qed.

(** X21: on a directory whose listing holds files only, a [RemoveAll]
    that succeeds deletes every listed file, in the order of the listing
    and under the key that joins the normalized name and the name of the
    file, and then the marker of the directory; it makes no other call. *)
Theorem RemoveAll_flat_directory (T : Type) (h : handler T) (fs : Fs)
    (fuel : nat) (name : gostring) (s s' : T) (fis : list FileInfo)
    (tr : list Event) :
  let key := Fs_sanitize fs name in
  run h (RemoveAll (S fuel) fs name) s
  = (Some None, s', mkEvent (Readdir (NewFile fs key) 0) (inl fis) :: tr) ->
  Forall (fun fi => IsDir fi = false) fis ->
  requests tr
  = map (fun fi =>
           DeleteObject {| del_Bucket := Bucket fs;
                           del_Key := path.Join key (fi_name fi) |}) fis
    ++ [DeleteObject {| del_Bucket := Bucket fs; del_Key := key ++ str "/" |}].
Proof.
  cbn zeta. rewrite RemoveAll_S. cbn [bind call run].
  destruct (h (Readdir _ _) s) as [x s1]. intros E Hflat.
  destruct x as [fis' | e].
  - destruct (run h (RemoveAll_range (RemoveAll fuel fs) fs _ fis') s1)
      as [[b s2] tr2] eqn:E2.
    pose proof (f_equal (fun x => fst (fst x)) E) as Eb. cbn [fst] in Eb.
    pose proof (f_equal snd E) as Etr. cbn [snd] in Etr.
    apply readdir_event_inj in Etr. destruct Etr as [Ex ->].
    injection Ex as ->. subst b.
    apply (RemoveAll_range_flat h _ fs _ fis Hflat _ _ _ E2).
  - cbn [run] in E. discriminate.
Qed.

Lemma RemoveAll_flat_directory_witness :
  let fs := NewFs (str "bucket") in
  let fis := [NewFileInfo (str "a.txt") false 3 (time_Unix 0 0);
              NewFileInfo (str "b.txt") false 5 (time_Unix 0 0)] in
  let h := canned (inr not_found_404) (inr not_found_404) fis in
  let tr :=
    [ mkEvent (DeleteObject {| del_Bucket := str "bucket";
                               del_Key := str "dir/a.txt" |}) None;
      mkEvent (DeleteObject {| del_Bucket := str "bucket";
                               del_Key := str "dir/b.txt" |}) None;
      mkEvent (DeleteObject {| del_Bucket := str "bucket";
                               del_Key := str "dir/" |}) None ] in
  run h (RemoveAll 1 fs (str "dir")) tt
  = (Some None, tt, mkEvent (Readdir (NewFile fs (str "dir")) 0) (inl fis) :: tr)
  /\ Forall (fun fi => IsDir fi = false) fis
  /\ requests tr
     = [ DeleteObject {| del_Bucket := str "bucket"; del_Key := str "dir/a.txt" |};
         DeleteObject {| del_Bucket := str "bucket"; del_Key := str "dir/b.txt" |};
         DeleteObject {| del_Bucket := str "bucket"; del_Key := str "dir/" |} ].
Proof.
  cbv zeta. split; [reflexivity|].
  split; [repeat constructor|].
  apply (RemoveAll_flat_directory unit
           (canned (inr not_found_404) (inr not_found_404)
              [NewFileInfo (str "a.txt") false 3 (time_Unix 0 0);
               NewFileInfo (str "b.txt") false 5 (time_Unix 0 0)])
           (NewFs (str "bucket")) 0 (str "dir") tt tt _ _ eq_refl).
  repeat constructor.
Defined.
